(** * WoodpeckerOnline: the puzzle grader, the progress recorder and the
      daily-plan sweep of [cmd/server/main.go]

    A shallow embedding of the grading core of the server:
    - [normalizeSAN]    (main.go 1153-1192), over models of the Go [strings]
                        functions it calls;
    - [gradeLine]       (main.go 1079-1149), the flat grader;
    - [gradeSolution]   (main.go 967-1021), the legacy depth-first grader;
    - [saveProgress]    (main.go 1209-1241), over a model of the [progress]
                        table;
    - [updateDailyPlans] (main.go 1303-1348), over an abstract plan service.

    Conventions.  A Go [string] is a Rocq [string]: a sequence of 8-bit
    characters.  A Go slice is a [list]; a nil slice and an empty slice are
    both [[]] (they agree on [len] and on iteration, which is all the graders
    observe).  Slice indices and lengths are [nat]; the integers handed to the
    database are [Z].  A [*int] that is nil or points to a value is an
    [option]. *)

From Stdlib Require Import Strings.String Strings.Ascii ZArith List Bool Lia.
From stdpp Require Import gmap strings list.

Local Open Scope string_scope.
Set Warnings "-register-all".

(** ** The Go [strings] functions used by the normalizer

    Each function is defined on the byte sequence of its argument and lifted
    to [string].  The models are exact on ASCII text (every byte below 128,
    [isASCII] below) and leave other bytes alone.  On other text Go does
    more: [TrimSpace] and [Fields] also take the code points U+0085, U+00A0,
    U+1680, U+2000 to U+200A, U+2028, U+2029, U+202F, U+205F and U+3000 for
    white space, and [ToLower] lowers every Unicode letter and writes U+FFFD
    for bytes that are not UTF-8.  A statement that holds of the Go
    functions on ASCII text only carries [isASCII] as a hypothesis. *)
Module GoBytes.

Definition isSpace (c : ascii) : bool :=
  match c with
  | "009" | "010" | "011" | "012" | "013" | " " => true
  | _ => false
  end%char.

Definition isUpper (c : ascii) : bool :=
  (("A" <=? c) && (c <=? "Z"))%char.

Definition isDigit (c : ascii) : bool :=
  (("0" <=? c) && (c <=? "9"))%char.

Definition lower (c : ascii) : ascii :=
  if isUpper c then ascii_of_nat (nat_of_ascii c + 32) else c.

Fixpoint dropWhile (p : ascii -> bool) (s : list ascii) : list ascii :=
  match s with
  | [] => []
  | c :: s' => if p c then dropWhile p s' else s
  end.

Definition TrimSpace (s : list ascii) : list ascii :=
  rev (dropWhile isSpace (rev (dropWhile isSpace s))).

Definition ToLower (s : list ascii) : list ascii := map lower s.

Fixpoint HasPrefix (s prefix : list ascii) {struct prefix} : bool :=
  match prefix, s with
  | [], _ => true
  | _ :: _, [] => false
  | p :: prefix', c :: s' => Ascii.eqb p c && HasPrefix s' prefix'
  end.

Fixpoint Contains (s substr : list ascii) : bool :=
  HasPrefix s substr ||
  match s with
  | [] => false
  | _ :: s' => Contains s' substr
  end.

(** [replaceFrom old new skip s]: the scan of [strings.ReplaceAll] over the
    rest [s] of the input, [skip] bytes of which still belong to the match
    just replaced.  Matches are taken leftmost first and do not overlap.
    [old] is never empty at the call sites (for an empty [old] Go inserts
    [new] around every code point, which this scan does not do). *)
Fixpoint replaceFrom (old new : list ascii) (skip : nat) (s : list ascii)
  : list ascii :=
  match s with
  | [] => []
  | c :: s' =>
      match skip with
      | S k => replaceFrom old new k s'
      | O =>
          if HasPrefix s old
          then new ++ replaceFrom old new (length old - 1) s'
          else c :: replaceFrom old new 0 s'
      end
  end.

Definition ReplaceAll (s old new : list ascii) : list ascii :=
  replaceFrom old new 0 s.

(** [splitFrom sep skip s]: the pieces of [strings.Split] over the rest [s]
    of the input; the result is never empty, its head is the piece being
    read.  [sep] is not empty at the call site. *)
Fixpoint splitFrom (sep : list ascii) (skip : nat) (s : list ascii)
  : list (list ascii) :=
  match s with
  | [] => [[]]
  | c :: s' =>
      match skip with
      | S k => splitFrom sep k s'
      | O =>
          if HasPrefix s sep
          then [] :: splitFrom sep (length sep - 1) s'
          else match splitFrom sep 0 s' with
               | piece :: pieces => (c :: piece) :: pieces
               | [] => [[c]]
               end
      end
  end.

Definition Split (s sep : list ascii) : list (list ascii) :=
  splitFrom sep 0 s.

End GoBytes.

Abbreviation bytes := list_ascii_of_string (only parsing).
Abbreviation of_bytes := string_of_list_ascii (only parsing).

Definition TrimSpace (s : string) : string :=
  of_bytes (GoBytes.TrimSpace (bytes s)).

Definition ToLower (s : string) : string :=
  of_bytes (GoBytes.ToLower (bytes s)).

Definition ReplaceAll (s old new : string) : string :=
  of_bytes (GoBytes.ReplaceAll (bytes s) (bytes old) (bytes new)).

Definition Contains (s substr : string) : bool :=
  GoBytes.Contains (bytes s) (bytes substr).

Definition Split (s sep : string) : list string :=
  map of_bytes (GoBytes.Split (bytes s) (bytes sep)).

(** The loop [for len(s) > 0 && s[0] >= '0' && s[0] <= '9' { s = s[1:] }]. *)
Fixpoint stripLeadingDigits (s : string) : string :=
  match s with
  | String c s' => if GoBytes.isDigit c then stripLeadingDigits s' else s
  | EmptyString => EmptyString
  end.

(** ** [normalizeSAN] (main.go 1153-1192) *)

Definition normalizeSAN (s : string) : string :=
  (* Convert to lowercase and trim whitespace *)
  let s := ToLower (TrimSpace s) in
  (* Accept 0-0 = O-O, 0-0-0 = O-O-O *)
  let s := ReplaceAll s "0-0-0" "o-o-o" in
  let s := ReplaceAll s "0-0" "o-o" in
  (* Strip +, #, !?, move numbers, and ellipses *)
  let s := ReplaceAll s "+" "" in
  let s := ReplaceAll s "#" "" in
  let s := ReplaceAll s "!" "" in
  let s := ReplaceAll s "?" "" in
  let s := ReplaceAll s "!?" "" in
  let s := ReplaceAll s "?!" "" in
  let s := ReplaceAll s "..." "" in
  let s := ReplaceAll s ".." "" in
  let s := ReplaceAll s "." "" in
  (* Remove any remaining digits at the start *)
  let s := stripLeadingDigits s in
  (* Handle promotions: accept e8=Q and e8Q *)
  let s :=
    if Contains s "=" then
      match Split s "=" with
      | [part0; part1] => (part0 ++ part1)%string
      | _ => s
      end
    else s in
  (* Remove any remaining whitespace *)
  ReplaceAll s " " "".

(** The same steps on the byte sequence, without the passages through
    [string]; [normalizeSAN] is shown below to compute it. *)
Definition promotionBytes (s : list ascii) : list ascii :=
  if GoBytes.Contains s (bytes "=") then
    match GoBytes.Split s (bytes "=") with
    | [part0; part1] => part0 ++ part1
    | _ => s
    end
  else s.

Definition normalizeBytes (s : list ascii) : list ascii :=
  let s := GoBytes.ToLower (GoBytes.TrimSpace s) in
  let s := GoBytes.ReplaceAll s (bytes "0-0-0") (bytes "o-o-o") in
  let s := GoBytes.ReplaceAll s (bytes "0-0") (bytes "o-o") in
  let s := GoBytes.ReplaceAll s (bytes "+") [] in
  let s := GoBytes.ReplaceAll s (bytes "#") [] in
  let s := GoBytes.ReplaceAll s (bytes "!") [] in
  let s := GoBytes.ReplaceAll s (bytes "?") [] in
  let s := GoBytes.ReplaceAll s (bytes "!?") [] in
  let s := GoBytes.ReplaceAll s (bytes "?!") [] in
  let s := GoBytes.ReplaceAll s (bytes "...") [] in
  let s := GoBytes.ReplaceAll s (bytes "..") [] in
  let s := GoBytes.ReplaceAll s (bytes ".") [] in
  let s := GoBytes.dropWhile GoBytes.isDigit s in
  let s := promotionBytes s in
  GoBytes.ReplaceAll s (bytes " ") [].

(** Text on which the models of [ToLower] and [TrimSpace] are exact. *)
Definition isASCII (s : string) : bool :=
  forallb (fun c => Nat.ltb (nat_of_ascii c) 128) (bytes s).

(** A move number followed by a tab, as pasted from a score sheet. *)
Definition tabbedMove : string := "1." ++ String "009" "e4".

(** ** The solution model (package [model]) *)

(** [model.Line]: one move of a solution line with its continuations. *)
Inductive Line : Type :=
  mkLine { SAN : string; Children : list Line; IsTick : bool }.

(** [model.Solution]. *)
Record Solution : Type :=
  mkSolution { Lines : list Line; AcceptedAlternatives : list (list string) }.

(** [model.Puzzle]; its field [Solution] is [PuzzleSolution] here, the name
    [Solution] being the type's. *)
Record Puzzle : Type :=
  mkPuzzle {
    ID : string;
    Difficulty : string;
    FEN : string;
    PuzzleSolution : Solution;
    Ticks : list string
  }.

(** ** [gradeLine] (main.go 1079-1149) *)

Record GradeLineResponse : Type :=
  mkGradeLineResponse {
    Correct : bool;
    Score : nat;
    TicksMatched : list nat;
    DepthMatched : nat;
    EarliestMistake : option nat;
    BestLine : list string;
    RequiredTicks : list string
  }.

(** The variables the loop of [gradeLine] updates: [response.Correct] and
    the four locals declared before the loop. *)
Record lineVars : Type :=
  mkLineVars {
    correct : bool;
    ticksMatched : list nat;
    depthMatched : nat;
    earliestMistake : option nat;
    bestLine : list string
  }.

(** [if earliestMistake == nil { earliestMistake = &i }] *)
Definition noteMistake (i : nat) (v : lineVars) : lineVars :=
  match earliestMistake v with
  | None =>
      mkLineVars (correct v) (ticksMatched v) (depthMatched v) (Some i)
        (bestLine v)
  | Some _ => v
  end.

(** [for i, typedMove := range typedSAN { ... }] from index [i] on; both
    [break]s return the variables as they stand. *)
Fixpoint gradeLineLoop (lines : list Line) (i : nat) (typedSAN : list string)
    (v : lineVars) : lineVars :=
  match typedSAN with
  | [] => v
  | typedMove :: rest =>
      match lines !! i with
      | None =>
          (* More moves typed than in solution *)
          noteMistake i v
      | Some solutionMove =>
          let normalizedTyped := normalizeSAN typedMove in
          let normalizedSolution := normalizeSAN (SAN solutionMove) in
          if String.eqb normalizedTyped normalizedSolution then
            gradeLineLoop lines (S i) rest
              (mkLineVars
                 (if Nat.eqb i 0 then true else correct v)
                 (if IsTick solutionMove
                  then ticksMatched v ++ [i] else ticksMatched v)
                 (i + 1)
                 (earliestMistake v)
                 (bestLine v ++ [SAN solutionMove]))
          else
            (* Move doesn't match - this is a mistake *)
            noteMistake i v
      end
  end.

Definition gradeLine (puzzle : Puzzle) (typedSAN : list string)
  : GradeLineResponse :=
  let response :=
    mkGradeLineResponse false 0 [] 0 None [] (Ticks puzzle) in
  if Nat.eqb (length typedSAN) 0 then response
  else
    let v :=
      gradeLineLoop (Lines (PuzzleSolution puzzle)) 0 typedSAN
        (mkLineVars false [] 0 None []) in
    mkGradeLineResponse
      (correct v)
      (if correct v then 1 + length (ticksMatched v) else 0)
      (ticksMatched v)
      (depthMatched v)
      (earliestMistake v)
      (bestLine v)
      (Ticks puzzle).

(** Sample puzzles for the examples below. *)
Definition flatPuzzle (lines : list Line) : Puzzle :=
  mkPuzzle "p" "easy" "" (mkSolution lines []) [].

Definition sampleLines : list Line :=
  [mkLine "e4" [] true; mkLine "e5" [] false; mkLine "Nf3" [] true].

(** ** [gradeSolution] (main.go 967-1021) *)

(** The variables captured by the closure [dfs]. *)
Record dfsVars : Type :=
  mkDfsVars { dfsCorrect : bool; dfsScore : nat; matchedLine : list string }.

(** The update of [matchedLine] at [depth]: overwrite in range, append
    otherwise. *)
Definition recordMatch (depth : nat) (san : string) (ml : list string)
  : list string :=
  if Nat.ltb depth (length ml) then <[depth := san]> ml else ml ++ [san].

(** One pass of the body of [for _, line := range lines] for [line]:
    [(true, v)] when the body executes [return true], [(false, v)] when the
    loop goes on to the next sibling. *)
Fixpoint dfsVisit (playedSAN : list string) (depth : nat) (line : Line)
    (v : dfsVars) {struct line} : bool * dfsVars :=
  if String.eqb (SAN line) "" then (false, v)
  else
    match playedSAN !! depth with
    | Some played =>
        if String.eqb (SAN line) played then
          let v1 :=
            mkDfsVars
              (if Nat.eqb depth 0 then true else dfsCorrect v)
              (if IsTick line then S (dfsScore v) else dfsScore v)
              (recordMatch depth (SAN line) (matchedLine v)) in
          if Nat.ltb (depth + 1) (length playedSAN)
             && Nat.ltb 0 (length (Children line))
          then
            (fix dfsChildren (lines : list Line) (v : dfsVars)
               : bool * dfsVars :=
               match lines with
               | [] => (false, v)
               | child :: rest =>
                   let '(found, v') :=
                     dfsVisit playedSAN (depth + 1) child v in
                   if found then (true, v') else dfsChildren rest v'
               end) (Children line) v1
          else if Nat.leb (length playedSAN) (depth + 1) then
            (* We've matched all played moves *)
            (true, v1)
          else (false, v1)
        else (false, v)
    | None => (false, v)
    end.

(** The closure [dfs(lines, depth)]. *)
Fixpoint dfs (playedSAN : list string) (lines : list Line) (depth : nat)
    (v : dfsVars) : bool * dfsVars :=
  match lines with
  | [] => (false, v)
  | line :: rest =>
      let '(found, v') := dfsVisit playedSAN depth line v in
      if found then (true, v') else dfs playedSAN rest depth v'
  end.

Definition gradeSolution (puzzle : Puzzle) (playedSAN : list string)
  : bool * nat * list string :=
  if Nat.eqb (length playedSAN) 0 then (false, 0, [])
  else
    let '(_, v) :=
      dfs playedSAN (Lines (PuzzleSolution puzzle)) 0
        (mkDfsVars false 0 []) in
    (dfsCorrect v, dfsScore v, matchedLine v).

Definition branchingPuzzle : Puzzle :=
  mkPuzzle "b" "easy" ""
    (mkSolution
       [mkLine "e4" [mkLine "e5" [] false] true;
        mkLine "e4" [mkLine "c5" [] false] true]
       [])
    [].

(** A one-move solution whose only node has no move, and a typed list whose
    only entry normalizes to the empty string. *)
Definition placeholderPuzzle : Puzzle := flatPuzzle [mkLine "" [] true].

(** *** The branching grade as the specification words it (section 4.4)

    Not translated from the code: the search the specification describes,
    kept apart to be compared with [gradeSolution].  At each depth the first
    sibling with a non-empty move equal to the typed move is taken, its move
    recorded and its tick counted; the search goes on below it while typed
    moves remain, and never returns to a later sibling. *)
Fixpoint specFirstMatchBelow (line : Line) (typed : list string)
    {struct line} : option (nat * list string) :=
  match typed with
  | [] => None
  | move :: rest =>
      if negb (String.eqb (SAN line) "") && String.eqb (SAN line) move then
        let below :=
          (fix firstOf (lines : list Line) : nat * list string :=
             match lines with
             | [] => (0, [])
             | child :: siblings =>
                 match specFirstMatchBelow child rest with
                 | Some r => r
                 | None => firstOf siblings
                 end
             end) (Children line) in
        Some ((if IsTick line then 1 else 0) + fst below,
              SAN line :: snd below)
      else None
  end.

Fixpoint specFirstMatchAmong (lines : list Line) (typed : list string)
  : nat * list string :=
  match lines with
  | [] => (0, [])
  | line :: siblings =>
      match specFirstMatchBelow line typed with
      | Some r => r
      | None => specFirstMatchAmong siblings typed
      end
  end.

Definition specFirstMatchGrade (puzzle : Puzzle) (typed : list string)
  : bool * nat * list string :=
  let '(points, path) :=
    specFirstMatchAmong (Lines (PuzzleSolution puzzle)) typed in
  (negb (Nat.eqb (length path) 0), points, path).

(** [Spells lines moves]: some path of the forest [lines], from a root
    downwards through nodes with non-empty moves, carries exactly
    [moves]. *)
Inductive Spells : list Line -> list string -> Prop :=
| Spells_nil lines : Spells lines []
| Spells_cons lines line moves :
    line ∈ lines ->
    SAN line <> "" ->
    Spells (Children line) moves ->
    Spells lines (SAN line :: moves).

(** The forest without its nodes that have no move, and without what hangs
    below them. *)
Fixpoint pruneLine (line : Line) : Line :=
  mkLine (SAN line)
    ((fix pruneAll (lines : list Line) : list Line :=
        match lines with
        | [] => []
        | child :: rest =>
            if String.eqb (SAN child) "" then pruneAll rest
            else pruneLine child :: pruneAll rest
        end) (Children line))
    (IsTick line).

Fixpoint pruneForest (lines : list Line) : list Line :=
  match lines with
  | [] => []
  | line :: rest =>
      if String.eqb (SAN line) "" then pruneForest rest
      else pruneLine line :: pruneForest rest
  end.

Definition prunePuzzle (puzzle : Puzzle) : Puzzle :=
  mkPuzzle (ID puzzle) (Difficulty puzzle) (FEN puzzle)
    (mkSolution (pruneForest (Lines (PuzzleSolution puzzle)))
       (AcceptedAlternatives (PuzzleSolution puzzle)))
    (Ticks puzzle).

(** What holds of the closure's variables when [dfs] is entered at [depth]:
    a typed move stands at [depth], [matchedLine] is the typed list's prefix
    of its own length and reaches [depth], and [correct] tells whether it is
    non-empty. *)
Definition dfsReady (playedSAN : list string) (depth : nat) (v : dfsVars)
  : Prop :=
  depth < length playedSAN /\
  depth <= length (matchedLine v) /\
  matchedLine v = take (length (matchedLine v)) playedSAN /\
  (dfsCorrect v = true <-> matchedLine v <> []).

(** What holds when [dfs] over [lines] at [depth] comes back with [r]:
    [matchedLine] is still a prefix of the typed list and has not shrunk;
    it is at least as long as every typed prefix that [lines] spell from
    [depth] on; if it grew, it grew to such a prefix; and a search that
    reports success has matched every typed move. *)
Definition dfsDone (playedSAN : list string) (lines : list Line)
    (depth : nat) (v : dfsVars) (r : bool * dfsVars) : Prop :=
  matchedLine r.2 = take (length (matchedLine r.2)) playedSAN /\
  length (matchedLine v) <= length (matchedLine r.2) /\
  (dfsCorrect r.2 = true <-> matchedLine r.2 <> []) /\
  (forall n,
      n <= length playedSAN - depth ->
      Spells lines (take n (drop depth playedSAN)) ->
      depth + n <= length (matchedLine r.2)) /\
  (length (matchedLine r.2) = length (matchedLine v) \/
   exists n,
     n <= length playedSAN - depth /\
     length (matchedLine r.2) = depth + n /\
     Spells lines (take n (drop depth playedSAN))) /\
  (r.1 = true -> length (matchedLine r.2) = length playedSAN).

(** ** [saveProgress] (main.go 1209-1241) over the [progress] table *)

(** A row of the table [progress] (main.go 326-337) without its [id]:
    [UNIQUE(user_id, puzzle_id)] makes the pair the key, so the table is a
    finite map from the pair to the other columns.  [typed_json] holds the
    typed moves (the list the stored JSON text encodes); the three
    timestamps are seconds, [solved_at] is nullable.  SQLite integers are
    64-bit; no column comes near the bound, so they are plain [Z]. *)
Record ProgressRow : Type :=
  mkProgressRow {
    attempts : Z;
    score : Z;
    solved_at : option Z;
    typed_json : list string;
    created_at : Z;
    updated_at : Z
  }.

(** [saveProgress], with the clock's [CURRENT_TIMESTAMP] as [now] and the
    table before and after.  The queries are taken to run: [db.Get] fails
    exactly when the pair has no row, and [db.Exec] then succeeds. *)
Definition saveProgress (now : Z) (userID puzzleID : string)
    (typedSAN : list string) (newScore depthMatched : Z)
    (progress : gmap (string * string) ProgressRow)
  : gmap (string * string) ProgressRow :=
  match progress !! (userID, puzzleID) with
  | None =>
      (* No existing progress, insert new *)
      <[(userID, puzzleID) :=
          mkProgressRow 1 newScore None typedSAN now now]> progress
  | Some row =>
      (* Update existing progress *)
      <[(userID, puzzleID) :=
          mkProgressRow
            (attempts row + 1)
            newScore
            (if (3 <=? depthMatched)%Z then Some now else solved_at row)
            typedSAN
            (created_at row)
            now]> progress
  end.

(** A recorded attempt, and a run of them in order. *)
Record SaveCall : Type :=
  mkSaveCall {
    callNow : Z;
    callUser : string;
    callPuzzle : string;
    callTyped : list string;
    callScore : Z;
    callDepth : Z
  }.

Definition saveCall (c : SaveCall)
    (progress : gmap (string * string) ProgressRow)
  : gmap (string * string) ProgressRow :=
  saveProgress (callNow c) (callUser c) (callPuzzle c) (callTyped c)
    (callScore c) (callDepth c) progress.

Definition saveCalls (cs : list SaveCall)
    (progress : gmap (string * string) ProgressRow)
  : gmap (string * string) ProgressRow :=
  fold_left (fun db c => saveCall c db) cs progress.

(** How many calls of a run are for the pair [k]. *)
Fixpoint callsFor (k : string * string) (cs : list SaveCall) : nat :=
  match cs with
  | [] => 0
  | c :: cs' =>
      (if bool_decide ((callUser c, callPuzzle c) = k) then 1 else 0)
      + callsFor k cs'
  end.

(** Three attempts of one user at one puzzle, at times 50, 100 and 200, the
    last two matching three moves. *)
Definition threeAttempts : list SaveCall :=
  [mkSaveCall 50 "default_user" "wpm_easy_001" ["Qh5"] 1 1;
   mkSaveCall 100 "default_user" "wpm_easy_001" ["Qh5"; "g6"; "Qxe5"] 3 3;
   mkSaveCall 200 "default_user" "wpm_easy_001" ["Qh5"; "g6"; "Qxe5"] 3 3].

(** ** [updateDailyPlans] (main.go 1303-1348)

    The package [woodpecker] and the database handle are not part of the
    sources at hand: the two service methods and the two queries are the
    section's variables.  Each takes the state of the store and returns it
    with its answer, an error ([inl]) or a value ([inr]). *)
Section DailyPlans.

Variables World Plan Err : Type.

(** [db.Select(&userIDs, `SELECT DISTINCT user_id FROM daily_plans ...`)] *)
Variable selectActiveUsers : World -> Err + list string.
(** [service.GetOrCreateDailyPlan(userID)] *)
Variable GetOrCreateDailyPlan : string -> World -> (Err + Plan) * World.
(** [service.BuildTodayBatch(userID, plan)] *)
Variable BuildTodayBatch :
  string -> Plan -> World -> (Err + list string) * World.
(** [plan.TodayBatch = todayBatch] *)
Variable setTodayBatch : Plan -> list string -> Plan.
(** [json.Marshal(plan)] *)
Variable Marshal : Plan -> string.
(** [db.Exec(`UPDATE daily_plans SET daily_plan_json = ? ...`, planJSON,
    userID)] *)
Variable execUpdatePlan : string -> string -> World -> option Err * World.

(** The lines [log.Printf] writes. *)
Inductive LogLine : Type :=
| ErrorGettingUsers (e : Err)
| ErrorGettingPlan (userID : string) (e : Err)
| ErrorBuildingBatch (userID : string) (e : Err)
| ErrorUpdatingPlan (userID : string) (e : Err)
| UpdatedPlan (userID : string) (puzzles : nat).

Definition lineUser (l : LogLine) : option string :=
  match l with
  | ErrorGettingUsers _ => None
  | ErrorGettingPlan u _ | ErrorBuildingBatch u _
  | ErrorUpdatingPlan u _ | UpdatedPlan u _ => Some u
  end.

(** The body of [for _, userID := range userIDs]; each [continue] and the
    end of the body hand the store on with the line logged. *)
Definition planUser (userID : string) (w : World) : World * LogLine :=
  match GetOrCreateDailyPlan userID w with
  | (inl e, w1) => (w1, ErrorGettingPlan userID e)
  | (inr plan, w1) =>
      match BuildTodayBatch userID plan w1 with
      | (inl e, w2) => (w2, ErrorBuildingBatch userID e)
      | (inr todayBatch, w2) =>
          let plan' := setTodayBatch plan todayBatch in
          let planJSON := Marshal plan' in
          match execUpdatePlan planJSON userID w2 with
          | (Some e, w3) => (w3, ErrorUpdatingPlan userID e)
          | (None, w3) => (w3, UpdatedPlan userID (length todayBatch))
          end
      end
  end.

Fixpoint sweepUsers (userIDs : list string) (w : World)
  : World * list LogLine :=
  match userIDs with
  | [] => (w, [])
  | userID :: rest =>
      let '(w1, line) := planUser userID w in
      let '(w2, lines) := sweepUsers rest w1 in
      (w2, line :: lines)
  end.

Definition updateDailyPlans (w : World) : World * list LogLine :=
  match selectActiveUsers w with
  | inl e => (w, [ErrorGettingUsers e])
  | inr userIDs =>
      (* Add default user if no users exist *)
      let userIDs :=
        if Nat.eqb (length userIDs) 0 then ["default_user"] else userIDs in
      sweepUsers userIDs w
  end.

End DailyPlans.

(** A small plan service to run the sweep on: the store is the list of
    users whose plan was written; fetching the plan of "bob" fails, building
    the batch of "dave" fails, everything else succeeds with a batch of two
    puzzles. *)
Definition demoGetPlan (userID : string) (w : list string)
  : (string + list string) * list string :=
  if String.eqb userID "bob" then (inl "no active cycle", w)
  else (inr [], w).

Definition demoBuildBatch (userID : string) (plan : list string)
    (w : list string) : (string + list string) * list string :=
  if String.eqb userID "dave" then (inl "cycle deleted", w)
  else (inr ["wpm_easy_001"; "wpm_easy_002"], w).

Definition demoExecUpdate (planJSON userID : string) (w : list string)
  : option string * list string :=
  (None, (w ++ [userID])%list).

Definition demoSweep (userIDs : list string) (w : list string)
  : list string * list (LogLine string) :=
  sweepUsers (list string) (list string) string
    demoGetPlan demoBuildBatch (fun _ batch => batch)
    (fun plan => String.concat "," plan) demoExecUpdate userIDs w.

(** * Further parts of the server *)

(** ** What [gradeLine] computes, in closed form *)

(** The number of leading typed moves whose normal form is that of the
    solution move at the same position. *)
Fixpoint matchedPrefix (lines : list Line) (typedSAN : list string) : nat :=
  match lines, typedSAN with
  | solutionMove :: lines', typedMove :: rest =>
      if String.eqb (normalizeSAN typedMove) (normalizeSAN (SAN solutionMove))
      then S (matchedPrefix lines' rest)
      else 0
  | _, _ => 0
  end.

(** The positions, counted from [i], of the tick moves of [lines]. *)
Fixpoint tickPositions (i : nat) (lines : list Line) : list nat :=
  match lines with
  | [] => []
  | solutionMove :: lines' =>
      if IsTick solutionMove then i :: tickPositions (S i) lines'
      else tickPositions (S i) lines'
  end.

(** ** [extractSideToMove] (main.go 1195-1206, also in packages [dev] and
    [model]) *)

(** [strings.Fields] on the byte sequence: the maximal runs of bytes that
    are not one of the six ASCII white-space bytes.  This is what
    [strings.Fields] computes on ASCII text; on other text Go also splits
    at the Unicode white space listed with [GoBytes], which a field of this
    model may contain. *)
Fixpoint fieldsBytes (s : list ascii) : list (list ascii) :=
  match s with
  | [] => []
  | c :: s' =>
      if GoBytes.isSpace c then fieldsBytes s'
      else
        match s' with
        | [] => [[c]]
        | d :: _ =>
            if GoBytes.isSpace d then [c] :: fieldsBytes s'
            else
              match fieldsBytes s' with
              | field :: fields => (c :: field) :: fields
              | [] => [[c]]
              end
        end
  end.

(** A field is a non-empty run of bytes that are not ASCII white
    space. *)
Definition isField (f : list ascii) : Prop :=
  f <> [] /\ Forall (fun c => GoBytes.isSpace c = false) f.

Definition Fields (s : string) : list string :=
  map of_bytes (fieldsBytes (bytes s)).

Definition extractSideToMove (fen : string) : string :=
  if String.eqb fen "" then "w" (* Default to white if FEN is empty *)
  else
    let parts := Fields fen in
    if Nat.leb 2 (length parts)
    then default "w" (parts !! 1) (* The second part of FEN *)
    else "w" (* Default to white if FEN is malformed *).

(** ** The stored puzzles (package [model]) *)

(** [model.PuzzleDB], its two JSON columns as the values they scan to. *)
Record PuzzleDB : Type :=
  mkPuzzleDB {
    pdbID : string;
    pdbDifficulty : string;
    pdbFEN : string;
    pdbSideToMove : string;
    pdbSolutionJSON : Solution;
    pdbTicksJSON : list string
  }.

Definition ToPuzzle (pdb : PuzzleDB) : Puzzle :=
  mkPuzzle (pdbID pdb) (pdbDifficulty pdb) (pdbFEN pdb)
    (pdbSolutionJSON pdb) (pdbTicksJSON pdb).

Definition FromPuzzle (puzzle : Puzzle) : PuzzleDB :=
  mkPuzzleDB (ID puzzle) (Difficulty puzzle) (FEN puzzle)
    (extractSideToMove (FEN puzzle))
    (PuzzleSolution puzzle) (Ticks puzzle).

(** ** The grading handlers *)

(** What a handler writes: a JSON body, or [http.Error] with its status and
    message. *)
Inductive HTTPResult (A : Type) : Type :=
| Responded (body : A)
| Failed (status : nat) (message : string).

Arguments Responded {A} body.
Arguments Failed {A} status message.

Record GradeLineRequest : Type :=
  mkGradeLineRequest { PuzzleID : string; TypedSAN : list string }.

(** [handleGradeLine] (main.go 1040-1077).  [body] is the decoded request,
    [None] when decoding fails; [puzzles] is the table [puzzles] by its
    primary key, holding the rows whose JSON columns scan (a failed
    [db.Get] is answered as a missing row); the clock and the table
    [progress] are as in [saveProgress]. *)
Definition handleGradeLine (body : option GradeLineRequest) (now : Z)
    (puzzles : gmap string PuzzleDB)
    (progress : gmap (string * string) ProgressRow)
  : HTTPResult GradeLineResponse * gmap (string * string) ProgressRow :=
  match body with
  | None => (Failed 400 "invalid JSON", progress)
  | Some req =>
      if String.eqb (PuzzleID req) "" then
        (Failed 400 "puzzleId required", progress)
      else
        match puzzles !! PuzzleID req with
        | None => (Failed 404 "puzzle not found", progress)
        | Some puzzleDB =>
            let puzzle := ToPuzzle puzzleDB in
            let response := gradeLine puzzle (TypedSAN req) in
            let userID := "default_user" in
            (Responded response,
             saveProgress now userID (PuzzleID req) (TypedSAN req)
               (Z.of_nat (Score response))
               (Z.of_nat (DepthMatched response)) progress)
        end
  end.

(** A run of requests to [handleGradeLine], each with its time. *)
Fixpoint handleGradeLines (requests : list (option GradeLineRequest * Z))
    (puzzles : gmap string PuzzleDB)
    (progress : gmap (string * string) ProgressRow)
  : gmap (string * string) ProgressRow :=
  match requests with
  | [] => progress
  | (body, now) :: rest =>
      handleGradeLines rest puzzles
        (handleGradeLine body now puzzles progress).2
  end.

Record GradeRequest : Type :=
  mkGradeRequest { gradePuzzleID : string; PlayedSAN : list string }.

(** [handleGradePuzzle] (main.go 923-965); the body is the triple
    [correct], [score], [matchedLine] of [GradeResponse]. *)
Definition handleGradePuzzle (body : option GradeRequest)
    (puzzles : gmap string PuzzleDB)
  : HTTPResult (bool * nat * list string) :=
  match body with
  | None => Failed 400 "invalid JSON"
  | Some req =>
      if String.eqb (gradePuzzleID req) "" then
        Failed 400 "puzzleId required"
      else
        match puzzles !! gradePuzzleID req with
        | None => Failed 404 "puzzle not found"
        | Some puzzleDB =>
            Responded (gradeSolution (ToPuzzle puzzleDB) (PlayedSAN req))
        end
  end.

(** [dev.puzzleRow]. *)
Record puzzleRow : Type :=
  mkPuzzleRow {
    rowID : string;
    rowFEN : string;
    rowSideToMove : string;
    SolutionRaw : string
  }.

(** The map [want] of [GradeFirstMove]: the non-empty first moves. *)
Definition expectedFirstMoves (lines : list Line) : gmap string bool :=
  fold_left
    (fun want ln =>
       if String.eqb (SAN ln) "" then want else <[SAN ln := true]> want)
    lines ∅.

(** [GradeFirstMove] (handlers.go 85-116) over [json.Unmarshal] of the
    stored solution text, which is the section's variable.  The body is
    the pair of ["correct"] and ["expectedFirstMoves"]. *)
Section GradeFirstMove.

Variable unmarshalSolution : string -> option Solution.

Definition GradeFirstMove (body : option GradeRequest)
    (puzzles : gmap string puzzleRow)
  : HTTPResult (bool * gmap string bool) :=
  match body with
  | None => Failed 400 "bad json"
  | Some req =>
      match puzzles !! gradePuzzleID req with
      | None => Failed 404 "puzzle not found"
      | Some p =>
          match unmarshalSolution (SolutionRaw p) with
          | None => Failed 500 "solution parse error"
          | Some sol =>
              let want := expectedFirstMoves (Lines sol) in
              let first :=
                match PlayedSAN req with
                | [] => ""
                | played0 :: _ => played0
                end in
              let ok := default false (want !! first) in
              Responded (ok, want)
          end
      end
  end.

End GradeFirstMove.

(** A stored puzzle with a two-move solution, and two full attempts at
    it. *)
Definition shortPuzzles : gmap string PuzzleDB :=
  {[ "wpm_easy_001" :=
       mkPuzzleDB "wpm_easy_001" "easy" "" "w"
         (mkSolution [mkLine "Qh5" [] true; mkLine "g6" [] false] [])
         ["Qh5"] ]}.

Definition shortAttempts : list (option GradeLineRequest * Z) :=
  [(Some (mkGradeLineRequest "wpm_easy_001" ["Qh5"; "g6"]), 50%Z);
   (Some (mkGradeLineRequest "wpm_easy_001" ["Qh5"; "g6"; "Qxe5"]), 100%Z)].

(** A stored row of the [dev] service, and a stand-in for the decoding of
    its solution text. *)
Definition devPuzzles : gmap string puzzleRow :=
  {[ "b" := mkPuzzleRow "b" "" "w" "{...}" ]}.

Definition devUnmarshal (raw : string) : option Solution :=
  Some (PuzzleSolution branchingPuzzle).

(** ** The board demo (main.go 28-62 and 475-807) *)

From stdpp Require Import vector finite.

(** Go's [int] here is 64 bits wide: sums and differences wrap around. *)
Module GoInt.

Definition wrap (z : Z) : Z := ((z + 2 ^ 63) mod 2 ^ 64 - 2 ^ 63)%Z.
Definition add (a b : Z) : Z := wrap (a + b).
Definition sub (a b : Z) : Z := wrap (a - b).
Definition neg (a : Z) : Z := wrap (- a).

(** [abs], [min] and [max] (main.go 788-807). *)
Definition abs (x : Z) : Z := if (x <? 0)%Z then neg x else x.
Definition min (a b : Z) : Z := if (a <? b)%Z then a else b.
Definition max (a b : Z) : Z := if (a >? b)%Z then a else b.

End GoInt.

(** A computation that returns or panics (an index out of range, a nil
    pointer).  The state left behind by a panic is not kept. *)
Inductive Run (A : Type) : Type :=
| Done (a : A)
| Panic.

Arguments Done {A} a.
Arguments Panic {A}.

Definition bindRun {A B : Type} (r : Run A) (k : A -> Run B) : Run B :=
  match r with
  | Done a => k a
  | Panic => Panic
  end.

(** [PieceType] and its constants. *)
Definition King : string := "king".
Definition Queen : string := "queen".
Definition Rook : string := "rook".
Definition Bishop : string := "bishop".
Definition Knight : string := "knight".
Definition Pawn : string := "pawn".

(** [Piece]; its field [Type] is [Type_] here. *)
Record Piece : Type := mkPiece { Type_ : string; Color : string }.

Record Move : Type :=
  mkMove { FromRow : Z; FromCol : Z; ToRow : Z; ToCol : Z }.

(** [ChessGame]; a nil [*Piece] is [None], and so is a nil map. *)
Record ChessGame : Type :=
  mkChessGame {
    Board : vec (vec (option Piece) 8) 8;
    CurrentPlayer : string;
    GameOver : bool;
    MoveHistory : list Move;
    CapturedPieces : option (gmap string (list Piece))
  }.

(** An index into an array of eight, when it is in range. *)
Definition index8 (z : Z) : option (fin 8) :=
  match z with
  | 0%Z => Some 0%fin
  | 1%Z => Some 1%fin
  | 2%Z => Some 2%fin
  | 3%Z => Some 3%fin
  | 4%Z => Some 4%fin
  | 5%Z => Some 5%fin
  | 6%Z => Some 6%fin
  | 7%Z => Some 7%fin
  | _ => None
  end.

(** The index that [i] stands for. *)
Definition Z8 (i : fin 8) : Z := Z.of_nat (fin_to_nat i).

(** [board[row][col]], which panics out of range. *)
Definition square (board : vec (vec (option Piece) 8) 8) (row col : Z)
  : Run (option Piece) :=
  match index8 row, index8 col with
  | Some i, Some j => Done ((board !!! i) !!! j)
  | _, _ => Panic
  end.

(** [board[row][col] = p], which panics out of range. *)
Definition setSquare (board : vec (vec (option Piece) 8) 8) (row col : Z)
    (p : option Piece) : Run (vec (vec (option Piece) 8) 8) :=
  match index8 row, index8 col with
  | Some i, Some j => Done (vinsert i (vinsert j p (board !!! i)) board)
  | _, _ => Panic
  end.

(** [isValidPawnMove] (main.go 637-669); reading the colour of a missing
    piece is a nil dereference. *)
Definition isValidPawnMove (game : ChessGame) (move : Move) : Run bool :=
  bindRun (square (Board game) (FromRow move) (FromCol move)) (fun from =>
  match from with
  | None => Panic
  | Some fromPiece =>
      let rowDiff := GoInt.sub (ToRow move) (FromRow move) in
      let colDiff := GoInt.abs (GoInt.sub (ToCol move) (FromCol move)) in
      let direction :=
        if String.eqb (Color fromPiece) "white" then (-1)%Z else 1%Z in
      if (colDiff =? 0)%Z then
        if (rowDiff =? direction)%Z then
          bindRun (square (Board game) (ToRow move) (ToCol move)) (fun to =>
          Done (bool_decide (to = None)))
        else if (String.eqb (Color fromPiece) "white"
                 && (FromRow move =? 6)%Z && (rowDiff =? -2)%Z)
                || (String.eqb (Color fromPiece) "black"
                    && (FromRow move =? 1)%Z && (rowDiff =? 2)%Z)
        then
          bindRun (square (Board game) (ToRow move) (ToCol move)) (fun to =>
          if bool_decide (to = None) then
            bindRun (square (Board game)
                       (GoInt.add (FromRow move) direction) (FromCol move))
              (fun mid => Done (bool_decide (mid = None)))
          else Done false)
        else Done false
      else if (GoInt.abs colDiff =? 1)%Z && (rowDiff =? direction)%Z then
        bindRun (square (Board game) (ToRow move) (ToCol move)) (fun to =>
        Done (negb (bool_decide (to = None))))
      else Done false
  end).

(** The two loops of [isValidRookMove]: [n] squares from [k] on, read by
    [read], must be empty. *)
Fixpoint pathClear (n : nat) (read : Z -> Run (option Piece)) (k : Z)
  : Run bool :=
  match n with
  | O => Done true
  | S n' =>
      bindRun (read k) (fun p =>
      match p with
      | Some _ => Done false
      | None => pathClear n' read (GoInt.add k 1)
      end)
  end.

(** [isValidRookMove] (main.go 671-702); a loop [for k := start + 1;
    k < end; k++] makes [end - k] rounds when nothing stops it. *)
Definition isValidRookMove (game : ChessGame) (move : Move) : Run bool :=
  let rowDiff := GoInt.sub (ToRow move) (FromRow move) in
  let colDiff := GoInt.sub (ToCol move) (FromCol move) in
  if negb (rowDiff =? 0)%Z && negb (colDiff =? 0)%Z then Done false
  else if (rowDiff =? 0)%Z then
    let start := GoInt.min (FromCol move) (ToCol move) in
    let end_ := GoInt.max (FromCol move) (ToCol move) in
    let col := GoInt.add start 1 in
    pathClear (Z.to_nat (end_ - col))
      (fun col => square (Board game) (FromRow move) col) col
  else
    let start := GoInt.min (FromRow move) (ToRow move) in
    let end_ := GoInt.max (FromRow move) (ToRow move) in
    let row := GoInt.add start 1 in
    pathClear (Z.to_nat (end_ - row))
      (fun row => square (Board game) row (FromCol move)) row.

(** [isValidKnightMove] (main.go 704-710). *)
Definition isValidKnightMove (move : Move) : bool :=
  let rowDiff := GoInt.abs (GoInt.sub (ToRow move) (FromRow move)) in
  let colDiff := GoInt.abs (GoInt.sub (ToCol move) (FromCol move)) in
  ((rowDiff =? 2)%Z && (colDiff =? 1)%Z)
  || ((rowDiff =? 1)%Z && (colDiff =? 2)%Z).

(** The loop of [isValidBishopMove].  Every round reads a square of a new
    row, one step further, and a read off the board panics: after eight
    rounds a ninth would read off the board, which is the answer when the
    rounds run out (see [bishopPath_rounds]). *)
Fixpoint bishopPath (rounds : nat) (board : vec (vec (option Piece) 8) 8)
    (row col rowStep colStep toRow toCol : Z) : Run bool :=
  if negb (row =? toRow)%Z && negb (col =? toCol)%Z then
    match rounds with
    | O => Panic
    | S rounds' =>
        bindRun (square board row col) (fun p =>
        match p with
        | Some _ => Done false
        | None =>
            bishopPath rounds' board (GoInt.add row rowStep)
              (GoInt.add col colStep) rowStep colStep toRow toCol
        end)
    end
  else Done true.

(** [isValidBishopMove] (main.go 712-742). *)
Definition isValidBishopMove (game : ChessGame) (move : Move) : Run bool :=
  let rowDiff := GoInt.sub (ToRow move) (FromRow move) in
  let colDiff := GoInt.sub (ToCol move) (FromCol move) in
  if negb (GoInt.abs rowDiff =? GoInt.abs colDiff)%Z then Done false
  else
    let rowStep := if (rowDiff <? 0)%Z then (-1)%Z else 1%Z in
    let colStep := if (colDiff <? 0)%Z then (-1)%Z else 1%Z in
    let row := GoInt.add (FromRow move) rowStep in
    let col := GoInt.add (FromCol move) colStep in
    bishopPath 8 (Board game) row col rowStep colStep
      (ToRow move) (ToCol move).

(** [isValidQueenMove] (main.go 744-747); [||] evaluates its right side
    only when the left is false. *)
Definition isValidQueenMove (game : ChessGame) (move : Move) : Run bool :=
  bindRun (isValidRookMove game move) (fun rook =>
  if rook then Done true else isValidBishopMove game move).

(** [isValidKingMove] (main.go 749-755). *)
Definition isValidKingMove (move : Move) : bool :=
  let rowDiff := GoInt.abs (GoInt.sub (ToRow move) (FromRow move)) in
  let colDiff := GoInt.abs (GoInt.sub (ToCol move) (FromCol move)) in
  (rowDiff <=? 1)%Z && (colDiff <=? 1)%Z.

(** [isValidMove] (main.go 594-635). *)
Definition isValidMove (game : ChessGame) (move : Move) : Run bool :=
  (* Check bounds *)
  if (FromRow move <? 0)%Z || (FromRow move >? 7)%Z
     || (FromCol move <? 0)%Z || (FromCol move >? 7)%Z
     || (ToRow move <? 0)%Z || (ToRow move >? 7)%Z
     || (ToCol move <? 0)%Z || (ToCol move >? 7)%Z
  then Done false
  else
    bindRun (square (Board game) (FromRow move) (FromCol move)) (fun from =>
    match from with
    | None => Done false
    | Some fromPiece =>
        (* Check if it's the player's turn *)
        if negb (String.eqb (Color fromPiece) (CurrentPlayer game))
        then Done false
        else
          bindRun (square (Board game) (ToRow move) (ToCol move)) (fun to =>
          (* Check if destination square has own piece *)
          if match to with
             | Some toPiece => String.eqb (Color toPiece) (Color fromPiece)
             | None => false
             end
          then Done false
          else
            (* Validate piece-specific moves *)
            if String.eqb (Type_ fromPiece) Pawn then
              isValidPawnMove game move
            else if String.eqb (Type_ fromPiece) Rook then
              isValidRookMove game move
            else if String.eqb (Type_ fromPiece) Knight then
              Done (isValidKnightMove move)
            else if String.eqb (Type_ fromPiece) Bishop then
              isValidBishopMove game move
            else if String.eqb (Type_ fromPiece) Queen then
              isValidQueenMove game move
            else if String.eqb (Type_ fromPiece) King then
              Done (isValidKingMove move)
            else Done false)
    end).

(** [makeMove] (main.go 757-774); reading a nil map gives the zero value,
    writing to it panics. *)
Definition makeMove (game : ChessGame) (move : Move) : Run ChessGame :=
  (* Capture piece if present *)
  bindRun (square (Board game) (ToRow move) (ToCol move)) (fun to =>
  bindRun
    match to with
    | Some capturedPiece =>
        let opponentColor :=
          if String.eqb (Color capturedPiece) "white" then "black"
          else "white" in
        let taken :=
          (default [] (CapturedPieces game ≫= (.!! opponentColor))
           ++ [capturedPiece])%list in
        match CapturedPieces game with
        | Some captured => Done (Some (<[opponentColor := taken]> captured))
        | None => Panic
        end
    | None => Done (CapturedPieces game)
    end (fun captured =>
  (* Move piece *)
  bindRun (square (Board game) (FromRow move) (FromCol move)) (fun from =>
  bindRun (setSquare (Board game) (ToRow move) (ToCol move) from)
    (fun board1 =>
  bindRun (setSquare board1 (FromRow move) (FromCol move) None)
    (fun board2 =>
  (* Add to move history *)
  Done (mkChessGame board2 (CurrentPlayer game) (GameOver game)
          (MoveHistory game ++ [move])%list captured)))))).

(** [isCheckmate] (main.go 776-786): no king is left on the board. *)
Definition isCheckmate (game : ChessGame) : bool :=
  negb
    (existsb
       (fun row =>
          existsb
            (fun col =>
               match (Board game !!! row) !!! col with
               | Some p => String.eqb (Type_ p) King
               | None => false
               end)
            (enum (fin 8)))
       (enum (fin 8))).

(** [setupPieces] (main.go 488-526). *)
Definition backRank (color : string) : vec (option Piece) 8 :=
  [# Some (mkPiece Rook color); Some (mkPiece Knight color);
     Some (mkPiece Bishop color); Some (mkPiece Queen color);
     Some (mkPiece King color); Some (mkPiece Bishop color);
     Some (mkPiece Knight color); Some (mkPiece Rook color)].

Definition setupPieces (game : ChessGame) : ChessGame :=
  let empty := vreplicate 8 (None : option Piece) in
  mkChessGame
    [# backRank "black"; vreplicate 8 (Some (mkPiece Pawn "black"));
       empty; empty; empty; empty;
       vreplicate 8 (Some (mkPiece Pawn "white")); backRank "white"]
    "white" false [] (CapturedPieces game).

(** [initializeGame] (main.go 475-486). *)
Definition initializeGame (game : ChessGame) : ChessGame :=
  setupPieces
    (mkChessGame (Board game) (CurrentPlayer game) (GameOver game)
       (MoveHistory game)
       (Some (<["black" := []]> (<["white" := []]> ∅)))).

(** [handleMove] (main.go 536-574): what is written, and the game after. *)
Definition handleMove (body : option Move) (game : ChessGame)
  : Run (HTTPResult ChessGame * ChessGame) :=
  match body with
  | None => Done (Failed 400 "Invalid move data", game)
  | Some move =>
      if GameOver game then Done (Failed 400 "Game is over", game)
      else
        bindRun (isValidMove game move) (fun valid =>
        if negb valid then Done (Failed 400 "Invalid move", game)
        else
          bindRun (makeMove game move) (fun game1 =>
          let game2 :=
            if isCheckmate game1
            then mkChessGame (Board game1) (CurrentPlayer game1) true
                   (MoveHistory game1) (CapturedPieces game1)
            else game1 in
          let game3 :=
            mkChessGame (Board game2)
              (if String.eqb (CurrentPlayer game2) "white" then "black"
               else "white")
              (GameOver game2) (MoveHistory game2) (CapturedPieces game2) in
          Done (Responded game3, game3)))
  end.

(** [handleNewGame] and [handleReset] (main.go 576-592). *)
Definition handleNewGame (game : ChessGame) : ChessGame := setupPieces game.
Definition handleReset (game : ChessGame) : ChessGame := setupPieces game.

(** The zero value of [var game ChessGame] (main.go 61), and the game once
    [main] has called [initializeGame] (main.go 143). *)
Definition zeroGame : ChessGame :=
  mkChessGame (vreplicate 8 (vreplicate 8 None)) "" false [] None.

Definition newGame : ChessGame := initializeGame zeroGame.

(** The routes that change the game (main.go 245-247), and the requests
    of a run served one after the other under [gameLock]. *)
Inductive BoardRequest : Type :=
| PostMove (body : option Move)
| PostNewGame
| PostReset.

Definition serveBoard (game : ChessGame) (request : BoardRequest)
  : Run ChessGame :=
  match request with
  | PostMove body => bindRun (handleMove body game) (fun r => Done (snd r))
  | PostNewGame => Done (handleNewGame game)
  | PostReset => Done (handleReset game)
  end.

Fixpoint serveBoardAll (game : ChessGame) (requests : list BoardRequest)
  : Run ChessGame :=
  match requests with
  | [] => Done game
  | request :: rest =>
      bindRun (serveBoard game request) (fun game1 =>
      serveBoardAll game1 rest)
  end.

(** Properties of a move that the statements below use: it stays on the
    board, it runs along a row, a column or a diagonal, and the squares
    strictly between its two ends are empty. *)
Definition onBoard (move : Move) : Prop :=
  (0 <= FromRow move <= 7)%Z /\ (0 <= FromCol move <= 7)%Z
  /\ (0 <= ToRow move <= 7)%Z /\ (0 <= ToCol move <= 7)%Z.

Definition alongLine (move : Move) : Prop :=
  ToRow move = FromRow move \/ ToCol move = FromCol move.

Definition alongDiagonal (move : Move) : Prop :=
  Z.abs (ToRow move - FromRow move) = Z.abs (ToCol move - FromCol move).

Definition pathEmpty (board : vec (vec (option Piece) 8) 8) (move : Move)
  : Prop :=
  forall k : Z,
    (0 < k < Z.max (Z.abs (ToRow move - FromRow move))
                   (Z.abs (ToCol move - FromCol move)))%Z ->
    square board
      (FromRow move + k * Z.sgn (ToRow move - FromRow move))
      (FromCol move + k * Z.sgn (ToCol move - FromCol move)) = Done None.

(** What [isValidPawnMove] accepts: one square forward onto an empty
    square, two squares forward from the starting row over empty squares,
    or one square diagonally forward onto a piece. *)
Definition pawnRule (board : vec (vec (option Piece) 8) 8) (move : Move)
    (p : Piece) : Prop :=
  let direction :=
    if String.eqb (Color p) "white" then (-1)%Z else 1%Z in
  (ToCol move = FromCol move
   /\ (ToRow move - FromRow move)%Z = direction
   /\ square board (ToRow move) (ToCol move) = Done None)
  \/ (ToCol move = FromCol move
      /\ (Color p = "white" /\ FromRow move = 6%Z /\ ToRow move = 4%Z
          \/ Color p = "black" /\ FromRow move = 1%Z /\ ToRow move = 3%Z)
      /\ square board (ToRow move) (ToCol move) = Done None
      /\ square board (FromRow move + direction) (FromCol move)
         = Done None)
  \/ (Z.abs (ToCol move - FromCol move) = 1%Z
      /\ (ToRow move - FromRow move)%Z = direction
      /\ exists q : Piece,
           square board (ToRow move) (ToCol move) = Done (Some q)).

(** What the switch of [isValidMove] accepts for the piece [p]. *)
Definition pieceRule (board : vec (vec (option Piece) 8) 8) (move : Move)
    (p : Piece) : Prop :=
  let rows := Z.abs (ToRow move - FromRow move) in
  let cols := Z.abs (ToCol move - FromCol move) in
  if String.eqb (Type_ p) Pawn then pawnRule board move p
  else if String.eqb (Type_ p) Rook then
    alongLine move /\ pathEmpty board move
  else if String.eqb (Type_ p) Knight then
    rows = 2%Z /\ cols = 1%Z \/ rows = 1%Z /\ cols = 2%Z
  else if String.eqb (Type_ p) Bishop then
    alongDiagonal move /\ pathEmpty board move
  else if String.eqb (Type_ p) Queen then
    (alongLine move \/ alongDiagonal move) /\ pathEmpty board move
  else if String.eqb (Type_ p) King then (rows <= 1)%Z /\ (cols <= 1)%Z
  else False.

(** [game.CapturedPieces[color]] as an expression reads it: the zero value
    for a key that is missing and for a nil map. *)
Definition capturedBy (game : ChessGame) (color : string) : list Piece :=
  default [] (CapturedPieces game ≫= (.!! color)).

(** The key under which [makeMove] files a captured piece. *)
Definition capturer (capturedPiece : Piece) : string :=
  if String.eqb (Color capturedPiece) "white" then "black" else "white".

(** What holds of the game between two requests of a run. *)
Definition boardInvariant (game : ChessGame) : Prop :=
  is_Some (CapturedPieces game)
  /\ GameOver game = isCheckmate game
  /\ (CurrentPlayer game = "white"
      /\ Nat.Even (length (MoveHistory game))
      \/ CurrentPlayer game = "black"
         /\ Nat.Odd (length (MoveHistory game)))
  /\ Forall (fun q => Color q = "white") (capturedBy game "black")
  /\ Forall (fun q => Color q <> "white") (capturedBy game "white")
  /\ (forall color : string,
        color <> "white" -> color <> "black" -> capturedBy game color = []).

(** ** [readPuzzlesFromFile] (part_001 19-85) *)

From Stdlib Require Import DecimalString.

(** [strings.SplitN(s, sep, 2)] for a separator that is not empty: the
    text before and after the first [sep], or [s] alone. *)
Fixpoint cutBytes (sep s : list ascii)
  : option (list ascii * list ascii) :=
  if GoBytes.HasPrefix s sep then Some ([], drop (length sep) s)
  else
    match s with
    | [] => None
    | c :: s' =>
        match cutBytes sep s' with
        | Some (before, after) => Some (c :: before, after)
        | None => None
        end
    end.

Definition SplitN2 (s sep : string) : list string :=
  match cutBytes (bytes sep) (bytes s) with
  | Some (before, after) => [of_bytes before; of_bytes after]
  | None => [s]
  end.

(** [strconv.Atoi]: an optional sign and one or more decimal digits, of a
    value that fits 64 bits; everything else is an error. *)
Fixpoint digitsValue (n : Z) (s : list ascii) : option Z :=
  match s with
  | [] => Some n
  | ch :: s' =>
      if GoBytes.isDigit ch
      then digitsValue (n * 10 + (Z.of_nat (nat_of_ascii ch) - 48))%Z s'
      else None
  end.

Definition atoiBytes (s : list ascii) : option Z :=
  let '(neg, digits) :=
    match s with
    | "-"%char :: rest => (true, rest)
    | "+"%char :: rest => (false, rest)
    | _ => (false, s)
    end in
  match digits with
  | [] => None
  | _ :: _ =>
      match digitsValue 0 digits with
      | Some n =>
          let n := if neg then (- n)%Z else n in
          if ((- 2 ^ 63 <=? n) && (n <? 2 ^ 63))%Z then Some n else None
      | None => None
      end
  end.

Definition Atoi (s : string) : option Z := atoiBytes (bytes s).

(** [strings.Join]. *)
Definition Join (elems : list string) (sep : string) : string :=
  String.concat sep elems.

(** [fmt.Sprintf("%03d", n)]: the sign, then the digits with zeros in
    front up to a width of three bytes in all. *)
Definition Sprintf03d (n : Z) : string :=
  let digits := NilZero.string_of_uint (N.to_uint (Z.abs_N n)) in
  let sign := if (n <? 0)%Z then "-" else "" in
  let width := (3 - String.length sign)%nat in
  (sign ++ of_bytes (repeat "0"%char (width - String.length digits))
   ++ digits)%string.

(** The placeholders that mark a line to skip. *)
Definition isPlaceholder (line : string) : bool :=
  Contains line "<insert fen value here>"
  || Contains line "<insert fen here>".

(** One round of the loop of [readPuzzlesFromFile] on a line that is
    already trimmed: the puzzle to append, or [None] where the loop
    says [continue]. *)
Definition readPuzzleLine (line : string) : option Puzzle :=
  if String.eqb line "" then None
  (* Skip lines with placeholder text *)
  else if isPlaceholder line then None
  else
    (* Parse line format: "number. FEN_string side_to_move" *)
    match SplitN2 line ". " with
    | [number; text] =>
        (* Extract puzzle number *)
        match Atoi number with
        | None => None
        | Some puzzleNum =>
            (* Extract FEN and side to move *)
            let fenParts := Fields text in
            if (length fenParts <? 2)%nat then None
            else
              (* Get the side to move (last part) *)
              let sideToMove := List.last fenParts "" in
              (* Get the board position (all parts except the last one) *)
              let boardPosition := Join (removelast fenParts) " " in
              (* Reconstruct full FEN with proper side to move *)
              let fen :=
                (boardPosition ++ " " ++ sideToMove ++ " - - 0 1")%string in
              (* Create puzzle ID *)
              let puzzleID := ("wpm_easy_" ++ Sprintf03d puzzleNum)%string in
              Some (mkPuzzle puzzleID "easy" fen (mkSolution [] []) [])
        end
    | _ => None
    end.

Fixpoint readPuzzleLines (maxPuzzles : Z) (lines : list string)
    (puzzles : list Puzzle) : list Puzzle :=
  match lines with
  | [] => puzzles
  | line :: rest =>
      if (Z.of_nat (length puzzles) >=? maxPuzzles)%Z then puzzles
      else
        match readPuzzleLine (TrimSpace line) with
        | Some puzzle =>
            readPuzzleLines maxPuzzles rest (puzzles ++ [puzzle])%list
        | None => readPuzzleLines maxPuzzles rest puzzles
        end
  end.

(** [content] is what [os.ReadFile] gives, [None] for its error. *)
Definition readPuzzlesFromFile (content : option string) (maxPuzzles : Z)
  : option (list Puzzle) :=
  match content with
  | None => None
  | Some content =>
      (* Split into lines and process *)
      Some (readPuzzleLines maxPuzzles (Split content (String "010" "")) [])
  end.

(** Two lines of a file, one a placeholder. *)
Definition sampleFile : string :=
  ("1. 6k1/5ppp/8/8/8/8/5PPP/R5K1 w" ++ String "010" ""
   ++ "2. <insert fen here>" ++ String "010" ""
   ++ "  7. 8/8/8/8/8/5k2/8/r4K2   b  " ++ String "010" "")%string.

(** How a puzzle that [readPuzzlesFromFile] returns comes from a line of
    the file: the line, trimmed, is not a placeholder and reads
    [number ++ ". " ++ text] with [number] an integer and [text] of two
    fields or more; the id is made of the number, the FEN of the fields of
    [text]. *)
Definition readFromLine (line : string) (p : Puzzle) : Prop :=
  exists (number text : string) (n : Z),
    TrimSpace line = (number ++ ". " ++ text)%string
    /\ isPlaceholder (TrimSpace line) = false
    /\ Atoi number = Some n
    /\ (2 <= length (Fields text))%nat
    /\ p = mkPuzzle ("wpm_easy_" ++ Sprintf03d n) "easy"
             (Join (Fields text ++ ["-"; "-"; "0"; "1"])%list " ")
             (mkSolution [] []) []
    /\ (12 <= String.length (ID p))%nat
    /\ Fields (FEN p) = (Fields text ++ ["-"; "-"; "0"; "1"])%list
    /\ extractSideToMove (FEN p) = default "w" (Fields text !! 1%nat).

(** * Properties *)

Local Open Scope list_scope.

(** ** Examples: the models run on the specification's sample inputs *)

Example normalizeSAN_check : normalizeSAN "Nf3+" = normalizeSAN "nf3".
Proof. reflexivity. Qed.

Example normalizeSAN_castle : normalizeSAN "O-O" = normalizeSAN "0-0".
Proof. reflexivity. Qed.

Example normalizeSAN_long_castle : normalizeSAN " 0-0-0# " = "o-o-o".
Proof. reflexivity. Qed.

Example normalizeSAN_promotion : normalizeSAN "e8=Q" = normalizeSAN "e8Q".
Proof. reflexivity. Qed.

Example normalizeSAN_move_number : normalizeSAN "12... Nxe5!?" = "nxe5".
Proof. reflexivity. Qed.

Example Split_two_seps : Split "a=b=c" "=" = ["a"; "b"; "c"].
Proof. reflexivity. Qed.

Example ReplaceAll_leftmost : ReplaceAll "0-0-0-0" "0-0" "o-o" = "o-o-o-o".
Proof. reflexivity. Qed.

Example gradeLine_full :
  gradeLine (flatPuzzle sampleLines) ["e4"; "e5"; "Nf3"]
  = mkGradeLineResponse true 3 [0; 2] 3 None ["e4"; "e5"; "Nf3"] [].
Proof. reflexivity. Qed.

Example gradeLine_wrong_first :
  gradeLine (flatPuzzle sampleLines) ["d4"]
  = mkGradeLineResponse false 0 [] 0 (Some 0) [] [].
Proof. reflexivity. Qed.

Example gradeLine_wrong_second :
  gradeLine (flatPuzzle sampleLines) ["e4"; "d5"]
  = mkGradeLineResponse true 2 [0] 1 (Some 1) ["e4"] [].
Proof. reflexivity. Qed.

Example gradeSolution_first_line :
  gradeSolution branchingPuzzle ["e4"; "e5"] = (true, 1, ["e4"; "e5"]).
Proof. reflexivity. Qed.

Example gradeSolution_second_line :
  gradeSolution branchingPuzzle ["e4"; "c5"] = (true, 2, ["e4"; "c5"]).
Proof. reflexivity. Qed.

(** ** The normalizer *)

(** C6 as stated fails.  A check mark inside a castling written with zeros
    is removed after the castling step has run, and a tab after a move
    number is uncovered after the trimming step has run: a second pass
    changes either result. *)
Lemma normalizeSAN_not_idempotent :
  normalizeSAN "a0+-0" = "a0-0" /\
  normalizeSAN (normalizeSAN "a0+-0") = "ao-o" /\
  normalizeSAN tabbedMove = String "009" "e4" /\
  normalizeSAN (normalizeSAN tabbedMove) = "e4" /\
  normalizeSAN (normalizeSAN "a0+-0") <> normalizeSAN "a0+-0".
Proof. repeat split. discriminate. Qed.

Section ByteFacts.
Import GoBytes.

Implicit Types (s old new : list ascii) (c d : ascii).

Lemma lower_lower c : lower (lower c) = lower c.
Proof.
  destruct c as [[] [] [] [] [] [] [] []]; reflexivity.
Qed.

Lemma dropWhile_Forall (P : ascii -> Prop) p s :
  Forall P s -> Forall P (dropWhile p s).
Proof.
  induction 1 as [|c s Hc Hs IH]; cbn; [constructor|].
  destruct (p c); [exact IH|constructor; assumption].
Qed.

Lemma replaceFrom_Forall (P : ascii -> Prop) old new s :
  Forall P new -> Forall P s -> forall k, Forall P (replaceFrom old new k s).
Proof.
  intros Hnew. induction 1 as [|c s Hc Hs IH]; intros k; cbn [replaceFrom];
    [constructor|].
  destruct k as [|k]; [|apply IH].
  destruct (HasPrefix (c :: s) old).
  - apply Forall_app. split; [exact Hnew|apply IH].
  - constructor; [exact Hc|apply IH].
Qed.

(** Deleting one character: it is gone, and the others are counted as
    before. *)
Lemma delete_char_gone c s : c ∉ replaceFrom [c] [] 0 s.
Proof.
  induction s as [|x s IH]; cbn; [apply not_elem_of_nil|].
  destruct (Ascii.eqb_spec c x) as [->|Hne]; cbn; [exact IH|].
  rewrite elem_of_cons. intros [?|?]; [congruence|contradiction].
Qed.

Lemma delete_char_count c d s :
  c <> d ->
  count_occ ascii_dec (replaceFrom [c] [] 0 s) d = count_occ ascii_dec s d.
Proof.
  intros Hne. induction s as [|x s IH]; [reflexivity|].
  cbn [replaceFrom HasPrefix length Nat.sub app].
  destruct (Ascii.eqb_spec c x) as [->|Hx]; cbn [andb].
  - rewrite IH. cbn. destruct (ascii_dec x d); [congruence|reflexivity].
  - cbn. rewrite IH. reflexivity.
Qed.

Lemma HasPrefix_elems s old d :
  HasPrefix s old = true -> d ∈ old -> d ∈ s.
Proof.
  revert s. induction old as [|p old IH]; intros s H Hd.
  - apply elem_of_nil in Hd. destruct Hd.
  - destruct s as [|x s]; [discriminate|]. cbn in H.
    apply andb_true_iff in H as [Hpx Hrest].
    apply Ascii.eqb_eq in Hpx as ->.
    apply elem_of_cons in Hd as [->|Hd]; apply elem_of_cons; [auto|].
    right. eapply IH; eassumption.
Qed.

Lemma Contains_elems s old d :
  Contains s old = true -> old <> [] -> d ∈ old -> d ∈ s.
Proof.
  intros H Hne Hd. induction s as [|x s IH]; cbn in H.
  - destruct old; [congruence|discriminate].
  - apply orb_true_iff in H as [H|H].
    + eapply HasPrefix_elems; eassumption.
    + apply elem_of_cons. right. apply IH, H.
Qed.

Lemma HasPrefix_app s p q :
  HasPrefix s (p ++ q) = true -> HasPrefix s p = true.
Proof.
  revert s. induction p as [|x p IH]; intros s H; [destruct s; reflexivity|].
  destruct s as [|y s]; [discriminate|]. cbn in *.
  apply andb_true_iff in H as [-> H]. cbn. apply IH, H.
Qed.

Lemma Contains_app s p q :
  Contains s (p ++ q) = true -> Contains s p = true.
Proof.
  induction s as [|x s IH]; cbn; intros H.
  - rewrite orb_false_r in *. apply (HasPrefix_app [] p q H).
  - apply orb_true_iff in H as [H|H]; apply orb_true_iff.
    + left. apply (HasPrefix_app (x :: s) p q H).
    + right. apply IH, H.
Qed.

(** Nothing to replace, nothing replaced. *)
Lemma ReplaceAll_absent s old new :
  Contains s old = false -> GoBytes.ReplaceAll s old new = s.
Proof.
  unfold GoBytes.ReplaceAll. induction s as [|x s IH]; [reflexivity|].
  cbn [Contains replaceFrom]. intros H.
  apply orb_false_iff in H as [-> H]. rewrite (IH H). reflexivity.
Qed.

Lemma ReplaceAll_no_char s old new d :
  d ∉ s -> d ∈ old -> GoBytes.ReplaceAll s old new = s.
Proof.
  intros Hs Hold. apply ReplaceAll_absent.
  destruct (Contains s old) eqn:H; [|reflexivity].
  exfalso. apply Hs. eapply Contains_elems; [exact H| |exact Hold].
  intros ->. apply elem_of_nil in Hold. exact Hold.
Qed.

Lemma Contains_char_count s c :
  Contains s [c] = false -> count_occ ascii_dec s c = 0.
Proof.
  induction s as [|x s IH]; [reflexivity|]. cbn [Contains HasPrefix].
  intros H. apply orb_false_iff in H as [Hx H].
  rewrite andb_true_r in Hx. apply Ascii.eqb_neq in Hx.
  cbn. destruct (ascii_dec x c); [congruence|]. apply IH, H.
Qed.

Lemma Split_char_length s c :
  length (GoBytes.Split s [c]) = S (count_occ ascii_dec s c).
Proof.
  unfold GoBytes.Split. induction s as [|x s IH]; [reflexivity|].
  cbn [splitFrom HasPrefix length Nat.sub].
  destruct (Ascii.eqb_spec c x) as [->|Hx]; cbn [andb].
  - cbn. rewrite IH. destruct (ascii_dec x x); [reflexivity|congruence].
  - destruct (splitFrom [c] 0 s) as [|piece pieces]; [discriminate|].
    cbn in *. rewrite IH.
    destruct (ascii_dec x c); [congruence|reflexivity].
Qed.

Lemma Split_char_concat s c :
  concat (GoBytes.Split s [c]) = GoBytes.ReplaceAll s [c] [].
Proof.
  unfold GoBytes.Split, GoBytes.ReplaceAll.
  induction s as [|x s IH]; [reflexivity|].
  cbn [splitFrom replaceFrom HasPrefix length Nat.sub].
  destruct (Ascii.eqb_spec c x) as [->|Hx]; cbn [andb].
  - cbn. exact IH.
  - pose proof (Split_char_length s c) as Hlen. unfold GoBytes.Split in Hlen.
    destruct (splitFrom [c] 0 s) as [|piece pieces]; [discriminate|].
    cbn in *. rewrite IH. reflexivity.
Qed.

(** The promotion step removes the "=" when there is exactly one. *)
Lemma promotionBytes_count s :
  promotionBytes s =
  if Nat.eqb (count_occ ascii_dec s "="%char) 1
  then GoBytes.ReplaceAll s ["="%char] []
  else s.
Proof.
  unfold promotionBytes. cbn [list_ascii_of_string].
  pose proof (Split_char_length s "=") as Hlen.
  pose proof (Split_char_concat s "=") as Hcat.
  destruct (Contains s ["="%char]) eqn:Hc.
  - destruct (GoBytes.Split s ["="%char]) as [|a [|b [|x r]]]; cbn in Hlen.
    + discriminate.
    + replace (count_occ ascii_dec s "="%char) with 0 by lia. reflexivity.
    + replace (count_occ ascii_dec s "="%char) with 1 by lia.
      cbn in Hcat. rewrite app_nil_r in Hcat. exact Hcat.
    + replace (count_occ ascii_dec s "="%char) with (S (S (length r)))
        by lia. reflexivity.
  - rewrite (Contains_char_count _ _ Hc). reflexivity.
Qed.

Lemma count_zero_absent s c : c ∉ s -> count_occ ascii_dec s c = 0.
Proof.
  intros H. apply count_occ_not_In. rewrite <- list_elem_of_In. exact H.
Qed.

Lemma ReplaceAll_Forall (P : ascii -> Prop) s old new :
  Forall P new -> Forall P s -> Forall P (GoBytes.ReplaceAll s old new).
Proof. intros Hnew Hs. apply replaceFrom_Forall; assumption. Qed.

Lemma delete_char_Forall c s :
  Forall (fun x => x <> c) (GoBytes.ReplaceAll s [c] []).
Proof.
  apply Forall_forall. intros x Hx ->.
  exact (delete_char_gone c s Hx).
Qed.

Lemma promotionBytes_Forall (P : ascii -> Prop) s :
  Forall P s -> Forall P (promotionBytes s).
Proof.
  intros H. rewrite promotionBytes_count.
  destruct (Nat.eqb _ 1); [|exact H].
  apply ReplaceAll_Forall; [constructor|exact H].
Qed.

Lemma ToLower_Forall s :
  Forall (fun c => lower c = c) (GoBytes.ToLower s).
Proof.
  unfold GoBytes.ToLower. apply Forall_forall. intros c Hc.
  apply list_elem_of_fmap in Hc as (c' & -> & _). apply lower_lower.
Qed.

Lemma ToLower_fixed s :
  Forall (fun c => lower c = c) s -> GoBytes.ToLower s = s.
Proof.
  unfold GoBytes.ToLower. induction 1 as [|c s Hc Hs IH]; cbn;
    [reflexivity|].
  rewrite Hc, IH. reflexivity.
Qed.

(** Walks the steps of [normalizeBytes] backwards from its result for a
    property every step hands on. *)
Ltac through_steps :=
  repeat first
    [ apply delete_char_Forall
    | apply ReplaceAll_Forall; [repeat constructor|]
    | apply promotionBytes_Forall
    | apply dropWhile_Forall ].

(** The shape of a normal form: lower case, none of the characters the
    normalizer deletes, and never exactly one "=". *)
Lemma normalizeBytes_shape x :
  Forall (fun c => lower c = c) (normalizeBytes x) /\
  (forall c, c ∈ bytes "+#!?. " -> c ∉ normalizeBytes x) /\
  count_occ ascii_dec (normalizeBytes x) "="%char <> 1.
Proof.
  split; [|split].
  - unfold normalizeBytes; cbv zeta. through_steps. apply ToLower_Forall.
  - intros c Hc. cbn [list_ascii_of_string] in Hc.
    assert (Forall (fun x => x <> c) (normalizeBytes x)) as Hall.
    { unfold normalizeBytes; cbv zeta. cbn [list_ascii_of_string].
      repeat (apply elem_of_cons in Hc as [->|Hc]); [through_steps..|].
      apply elem_of_nil in Hc. destruct Hc. }
    intros Hin. rewrite Forall_forall in Hall. exact (Hall c Hin eq_refl).
  - unfold normalizeBytes; cbv zeta. cbn [list_ascii_of_string].
    match goal with
    | |- context [promotionBytes ?s] => generalize s; intros s6
    end.
    unfold GoBytes.ReplaceAll at 1.
    rewrite delete_char_count by discriminate.
    rewrite promotionBytes_count.
    destruct (Nat.eqb_spec (count_occ ascii_dec s6 "="%char) 1)
      as [Hone|Hnot]; [|exact Hnot].
    rewrite count_zero_absent; [discriminate|apply delete_char_gone].
Qed.

(** A sequence of that shape on which trimming, the castling step and the
    stripping of digits do nothing is left as it is by every step. *)
Lemma normalizeBytes_fixed y :
  Forall (fun c => lower c = c) y ->
  (forall c, c ∈ bytes "+#!?. " -> c ∉ y) ->
  count_occ ascii_dec y "="%char <> 1 ->
  GoBytes.TrimSpace y = y ->
  Contains y (bytes "0-0") = false ->
  dropWhile isDigit y = y ->
  normalizeBytes y = y.
Proof.
  intros Hlower Hclean Heq Htrim Hcastle Hdigit.
  assert (Hno : forall c old new,
             c ∈ bytes "+#!?. " -> c ∈ old ->
             GoBytes.ReplaceAll y old new = y).
  { intros c old new Hc Hold.
    apply (ReplaceAll_no_char y old new c); [apply Hclean, Hc|exact Hold]. }
  assert (Hlong : Contains y (bytes "0-0-0") = false).
  { destruct (Contains y (bytes "0-0-0")) eqn:H; [|reflexivity].
    rewrite <- Hcastle. symmetry.
    apply (Contains_app y (bytes "0-0") (bytes "-0")). exact H. }
  unfold normalizeBytes; cbv zeta.
  rewrite Htrim, (ToLower_fixed y Hlower).
  rewrite (ReplaceAll_absent y _ _ Hlong), (ReplaceAll_absent y _ _ Hcastle).
  cbn [list_ascii_of_string] in *.
  rewrite (Hno "+"%char), (Hno "#"%char), (Hno "!"%char), (Hno "?"%char),
    (Hno "!"%char), (Hno "?"%char), (Hno "."%char), (Hno "."%char),
    (Hno "."%char) by (repeat constructor).
  rewrite Hdigit, promotionBytes_count.
  destruct (Nat.eqb_spec (count_occ ascii_dec y "="%char) 1); [contradiction|].
  apply (Hno " "%char); repeat constructor.
Qed.

End ByteFacts.

(** *** From bytes to strings *)

Lemma bytes_of_bytes (l : list ascii) : bytes (of_bytes l) = l.
Proof. apply list_ascii_of_string_of_list_ascii. Qed.

Lemma of_bytes_bytes (s : string) : of_bytes (bytes s) = s.
Proof. apply string_of_list_ascii_of_string. Qed.

Lemma bytes_append (s1 s2 : string) :
  bytes (s1 ++ s2)%string = bytes s1 ++ bytes s2.
Proof.
  induction s1 as [|c s1 IH]; [reflexivity|].
  change (bytes (String c (s1 ++ s2)%string) = bytes (String c s1) ++ bytes s2).
  cbn [list_ascii_of_string]. rewrite IH. reflexivity.
Qed.

Lemma bytes_stripLeadingDigits (s : string) :
  bytes (stripLeadingDigits s) = GoBytes.dropWhile GoBytes.isDigit (bytes s).
Proof.
  induction s as [|c s IH]; cbn; [reflexivity|].
  destruct (GoBytes.isDigit c); [exact IH|reflexivity].
Qed.

Lemma bytes_promotion (s : string) :
  bytes (if Contains s "=" then
           match Split s "=" with
           | [part0; part1] => (part0 ++ part1)%string
           | _ => s
           end
         else s)
  = promotionBytes (bytes s).
Proof.
  unfold Contains, Split, promotionBytes.
  destruct (GoBytes.Contains (bytes s) (bytes "=")); [|reflexivity].
  destruct (GoBytes.Split (bytes s) (bytes "=")) as [|a [|b [|c r]]];
    cbn [map]; try reflexivity.
  rewrite bytes_append, !bytes_of_bytes. reflexivity.
Qed.

(** [normalizeSAN] computes [normalizeBytes] on the bytes of its
    argument. *)
Lemma bytes_normalizeSAN (s : string) :
  bytes (normalizeSAN s) = normalizeBytes (bytes s).
Proof.
  unfold normalizeSAN; cbv zeta.
  unfold ReplaceAll at 1. rewrite bytes_of_bytes, bytes_promotion.
  rewrite bytes_stripLeadingDigits.
  unfold ReplaceAll, ToLower, TrimSpace. rewrite !bytes_of_bytes.
  reflexivity.
Qed.

Lemma normalizeSAN_of_bytes (s : string) :
  normalizeSAN s = of_bytes (normalizeBytes (bytes s)).
Proof. rewrite <- bytes_normalizeSAN, of_bytes_bytes. reflexivity. Qed.

(** C6, amended.  On ASCII text, a second pass of [normalizeSAN] changes
    nothing whenever the first result has no white space at either end,
    contains no "0-0" and does not start with a digit: the other steps
    (lower case, the deleted characters, the promotion sign, the spaces)
    never have anything left to do on a normal form. *)
Theorem normalizeSAN_idempotent_when_settled (x : string) :
  isASCII x = true ->
  TrimSpace (normalizeSAN x) = normalizeSAN x ->
  Contains (normalizeSAN x) "0-0" = false ->
  stripLeadingDigits (normalizeSAN x) = normalizeSAN x ->
  normalizeSAN (normalizeSAN x) = normalizeSAN x.
Proof.
  intros _ Htrim Hcastle Hdigit.
  destruct (normalizeBytes_shape (bytes x)) as (Hlower & Hclean & Heq).
  rewrite <- bytes_normalizeSAN in Hlower, Hclean, Heq.
  set (y := normalizeSAN x) in *.
  rewrite (normalizeSAN_of_bytes y).
  rewrite normalizeBytes_fixed; try assumption.
  - apply of_bytes_bytes.
  - unfold TrimSpace in Htrim. apply (f_equal list_ascii_of_string) in Htrim.
    rewrite bytes_of_bytes in Htrim. exact Htrim.
  - rewrite <- bytes_stripLeadingDigits, Hdigit. reflexivity.
Qed.

Lemma normalizeSAN_idempotent_when_settled_witness :
  normalizeSAN (normalizeSAN "12... Nxe5!?") = normalizeSAN "12... Nxe5!?".
Proof.
  apply (normalizeSAN_idempotent_when_settled "12... Nxe5!?"); reflexivity.
Defined.

Section FixedPoints.
Import GoBytes.

Implicit Types (s old new : list ascii) (c d : ascii).
















End FixedPoints.



(** ** The flat grader *)

(** The graders only compare normal forms; their proofs never look inside
    [normalizeSAN]. *)
Arguments normalizeSAN : simpl never.

Section GradeLineLoop.

Variable lines : list Line.

Lemma noteMistake_correct i v : correct (noteMistake i v) = correct v.
Proof. unfold noteMistake. destruct (earliestMistake v); reflexivity. Qed.

Lemma noteMistake_depth i v :
  depthMatched (noteMistake i v) = depthMatched v.
Proof. unfold noteMistake. destruct (earliestMistake v); reflexivity. Qed.

Lemma noteMistake_best i v : bestLine (noteMistake i v) = bestLine v.
Proof. unfold noteMistake. destruct (earliestMistake v); reflexivity. Qed.

Lemma noteMistake_fresh i v :
  earliestMistake v = None -> earliestMistake (noteMistake i v) = Some i.
Proof. unfold noteMistake. intros ->. reflexivity. Qed.

(** Past the first position the loop never touches [response.Correct]. *)
Lemma gradeLineLoop_correct_later typed :
  forall i v, 0 < i -> correct (gradeLineLoop lines i typed v) = correct v.
Proof.
  induction typed as [|t typed IH]; intros i v Hi; cbn; [reflexivity|].
  destruct (lines !! i) as [l|]; [|apply noteMistake_correct].
  destruct (String.eqb _ _); [|apply noteMistake_correct].
  rewrite IH by lia. cbn.
  destruct (Nat.eqb_spec i 0); [lia|reflexivity].
Qed.

(** The loop keeps [depthMatched], [bestLine] and [earliestMistake] in
    step: entered at position [i] with [i] moves matched and no mistake
    noted, it leaves as many canonical moves in [bestLine] as
    [depthMatched] counts, and a mistake is noted at that very position. *)
Lemma gradeLineLoop_in_step typed :
  forall i v,
    earliestMistake v = None ->
    depthMatched v = i ->
    length (bestLine v) = i ->
    let v' := gradeLineLoop lines i typed v in
    depthMatched v' = length (bestLine v') /\
    (forall e, earliestMistake v' = Some e -> e = depthMatched v').
Proof.
  induction typed as [|t typed IH]; intros i v Hm Hd Hb; cbn.
  - split; [congruence|]. intros e He. congruence.
  - assert (Hstop :
      depthMatched (noteMistake i v) = length (bestLine (noteMistake i v)) /\
      (forall e, earliestMistake (noteMistake i v) = Some e ->
                 e = depthMatched (noteMistake i v))).
    { rewrite noteMistake_depth, noteMistake_best, (noteMistake_fresh i v Hm).
      split; [congruence|]. intros e [= <-]. congruence. }
    destruct (lines !! i) as [l|]; [|exact Hstop].
    destruct (String.eqb _ _); [|exact Hstop].
    apply IH; cbn; [assumption|lia|].
    rewrite length_app. cbn. lia.
Qed.

(** Typing the solution's own moves from position [i] on matches them
    all. *)
Lemma gradeLineLoop_own_moves k :
  forall i v,
    i + k <= length lines ->
    earliestMistake v = None ->
    depthMatched v = i ->
    let v' := gradeLineLoop lines i (map SAN (take k (drop i lines))) v in
    depthMatched v' = i + k /\ earliestMistake v' = None.
Proof.
  induction k as [|k IH]; intros i v Hlen Hm Hd; cbn.
  - rewrite take_0. cbn. split; [lia|assumption].
  - destruct (lookup_lt_is_Some_2 lines i) as [l Hl]; [lia|].
    rewrite (drop_S _ _ _ Hl). cbn. rewrite Hl.
    rewrite String.eqb_refl.
    destruct (IH (S i)
                (mkLineVars (if Nat.eqb i 0 then true else correct v)
                   (if IsTick l then ticksMatched v ++ [i]
                    else ticksMatched v)
                   (i + 1) (earliestMistake v)
                   (bestLine v ++ [SAN l]))) as [H1 H2];
      cbn; [lia|assumption|lia|].
    split; [rewrite H1; lia|exact H2].
Qed.

End GradeLineLoop.

(** C1.  The score of [gradeLine] is 0 when [Correct] is false and one more
    than the number of entries of [TicksMatched] otherwise; [Correct] is
    true exactly when there are a first typed move and a first solution move
    and their normal forms are equal. *)
Theorem gradeLine_score_and_correct (puzzle : Puzzle) (typedSAN : list string) :
  let r := gradeLine puzzle typedSAN in
  Score r = (if Correct r then 1 + length (TicksMatched r) else 0) /\
  Correct r =
    match typedSAN, Lines (PuzzleSolution puzzle) with
    | typedMove :: _, first :: _ =>
        String.eqb (normalizeSAN typedMove) (normalizeSAN (SAN first))
    | _, _ => false
    end.
Proof.
  unfold gradeLine.
  destruct typedSAN as [|t typed]; cbn; [split; reflexivity|].
  split; [reflexivity|].
  destruct (Lines (PuzzleSolution puzzle)) as [|l ls] eqn:Hl; cbn;
    [reflexivity|].
  destruct (String.eqb _ _); [|reflexivity].
  rewrite gradeLineLoop_correct_later by lia. reflexivity.
Qed.

(** C2.  When the typed list is, string for string, the first [k] moves of
    the solution ([k] at most its length), [gradeLine] reports
    [DepthMatched = k] and no mistake. *)
Theorem gradeLine_exact_prefix (puzzle : Puzzle) (k : nat) :
  k <= length (Lines (PuzzleSolution puzzle)) ->
  let r :=
    gradeLine puzzle (map SAN (take k (Lines (PuzzleSolution puzzle)))) in
  DepthMatched r = k /\ EarliestMistake r = None.
Proof.
  intros Hk. unfold gradeLine.
  destruct k as [|k]; [rewrite take_0; cbn; split; reflexivity|].
  set (lines := Lines (PuzzleSolution puzzle)) in *.
  destruct (gradeLineLoop_own_moves lines (S k) 0
              (mkLineVars false [] 0 None [])) as [H1 H2];
    [cbn; lia|reflexivity|reflexivity|].
  rewrite drop_0 in H1, H2.
  replace (length (map SAN (take (S k) lines)) =? 0)%nat with false.
  - cbn in *. split; assumption.
  - symmetry. apply Nat.eqb_neq.
    rewrite length_map, length_take. lia.
Qed.

Lemma gradeLine_exact_prefix_witness :
  let r := gradeLine (flatPuzzle sampleLines) ["e4"; "e5"] in
  DepthMatched r = 2 /\ EarliestMistake r = None.
Proof.
  apply (gradeLine_exact_prefix (flatPuzzle sampleLines) 2). cbn. lia.
Defined.

(** C10.  Every result of [gradeLine] has [DepthMatched] equal to the
    length of [BestLine], and a noted [EarliestMistake] equal to
    [DepthMatched]. *)
Theorem gradeLine_consistent (puzzle : Puzzle) (typedSAN : list string) :
  let r := gradeLine puzzle typedSAN in
  DepthMatched r = length (BestLine r) /\
  match EarliestMistake r with
  | Some e => e = DepthMatched r
  | None => True
  end.
Proof.
  unfold gradeLine.
  destruct (Nat.eqb (length typedSAN) 0); cbn; [split; [reflexivity|exact I]|].
  destruct (gradeLineLoop_in_step (Lines (PuzzleSolution puzzle)) typedSAN 0
              (mkLineVars false [] 0 None [])) as [H1 H2];
    [reflexivity|reflexivity|reflexivity|].
  split; [exact H1|].
  destruct (earliestMistake _) as [e|] eqn:He; [|exact I].
  apply H2. reflexivity.
Qed.

(** C7.  With no typed move both graders return their zero result: nothing
    correct, no score, empty lists, no mistake noted ([RequiredTicks], which
    is not part of the grade, passes the puzzle's ticks through). *)
Theorem grade_empty_typed (puzzle : Puzzle) :
  gradeLine puzzle []
    = mkGradeLineResponse false 0 [] 0 None [] (Ticks puzzle) /\
  gradeSolution puzzle [] = (false, 0, []).
Proof. split; reflexivity. Qed.

(** ** The legacy depth-first grader *)

(** Induction over a solution tree with the hypothesis for every child. *)
Lemma Line_forest_ind (Q : Line -> Prop) :
  (forall san children tick,
      Forall Q children -> Q (mkLine san children tick)) ->
  forall line, Q line.
Proof.
  intros step. fix IH 1. intros [san children tick].
  apply step. induction children as [|c cs IHcs]; constructor.
  - apply IH.
  - exact IHcs.
Qed.

(** The loop over the children inside [dfsVisit] is [dfs]. *)
Lemma dfsVisit_eq playedSAN depth line v :
  dfsVisit playedSAN depth line v =
  if String.eqb (SAN line) "" then (false, v)
  else
    match playedSAN !! depth with
    | Some played =>
        if String.eqb (SAN line) played then
          let v1 :=
            mkDfsVars
              (if Nat.eqb depth 0 then true else dfsCorrect v)
              (if IsTick line then S (dfsScore v) else dfsScore v)
              (recordMatch depth (SAN line) (matchedLine v)) in
          if Nat.ltb (depth + 1) (length playedSAN)
             && Nat.ltb 0 (length (Children line))
          then dfs playedSAN (Children line) (depth + 1) v1
          else if Nat.leb (length playedSAN) (depth + 1) then (true, v1)
          else (false, v1)
        else (false, v)
    | None => (false, v)
    end.
Proof.
  destruct line as [san children tick]; simpl.
  destruct (String.eqb san ""); [reflexivity|].
  destruct (playedSAN !! depth) as [played|]; [|reflexivity].
  destruct (String.eqb san played); [|reflexivity].
  destruct (_ && _); [|reflexivity].
  generalize (mkDfsVars (if Nat.eqb depth 0 then true else dfsCorrect v)
                (if tick then S (dfsScore v) else dfsScore v)
                (recordMatch depth san (matchedLine v))).
  induction children as [|c cs IHcs]; intros v1; simpl; [reflexivity|].
  destruct (dfsVisit playedSAN (depth + 1) c v1) as [found v'].
  destruct found; [reflexivity|apply IHcs].
Qed.

(** A node with an empty move is passed over by the legacy search. *)
Lemma dfsVisit_empty_move playedSAN depth line v :
  SAN line = "" -> dfsVisit playedSAN depth line v = (false, v).
Proof. intros H. rewrite dfsVisit_eq, H. reflexivity. Qed.

Lemma Spells_nil_inv moves : Spells [] moves -> moves = [].
Proof.
  inversion 1 as [|? line ? Hin]; [reflexivity|].
  apply elem_of_nil in Hin. destruct Hin.
Qed.

Lemma Spells_single_inv line move moves :
  Spells [line] (move :: moves) ->
  SAN line = move /\ SAN line <> "" /\ Spells (Children line) moves.
Proof.
  inversion 1 as [|? line' ? Hin Hne Hbelow]; subst.
  apply list_elem_of_singleton in Hin. subst line'. auto.
Qed.

Lemma Spells_mono lines lines' moves :
  (forall line, line ∈ lines -> line ∈ lines') ->
  Spells lines moves -> Spells lines' moves.
Proof.
  intros Hsub H. destruct H; constructor; auto.
Qed.

Lemma Spells_cons_split line lines moves :
  Spells (line :: lines) moves -> Spells [line] moves \/ Spells lines moves.
Proof.
  inversion 1 as [|? line' ? Hin Hne Hbelow]; subst; [left; constructor|].
  apply elem_of_cons in Hin as [->|Hin].
  - left. constructor; [apply list_elem_of_singleton; reflexivity|assumption..].
  - right. constructor; assumption.
Qed.

Section DepthFirst.

Variable playedSAN : list string.

Lemma prefix_length_le (ml : list string) :
  ml = take (length ml) playedSAN -> length ml <= length playedSAN.
Proof.
  intros H. rewrite H, length_take. lia.
Qed.

(** Recording a match at [depth] keeps [matchedLine] a prefix of the typed
    list: in range it rewrites the move already there, at the end it
    appends the next typed move. *)
Lemma recordMatch_prefix depth played (ml : list string) :
  ml = take (length ml) playedSAN ->
  depth <= length ml ->
  playedSAN !! depth = Some played ->
  recordMatch depth played ml
    = take (Nat.max (length ml) (S depth)) playedSAN /\
  length (recordMatch depth played ml) = Nat.max (length ml) (S depth).
Proof.
  intros Hpre Hle Hplayed. unfold recordMatch.
  pose proof (prefix_length_le ml Hpre) as Hlen.
  pose proof (lookup_lt_Some _ _ _ Hplayed) as Hd.
  destruct (Nat.ltb_spec depth (length ml)) as [Hlt|Hge].
  - rewrite list_insert_id.
    + replace (Nat.max (length ml) (S depth)) with (length ml) by lia.
      split; [exact Hpre|reflexivity].
    + rewrite Hpre, lookup_take_lt by lia. exact Hplayed.
  - assert (length ml = depth) as Heq by lia.
    replace (Nat.max (length ml) (S depth)) with (S depth) by lia.
    rewrite (take_S_r _ _ _ Hplayed), <- Heq, <- Hpre.
    split; [reflexivity|]. rewrite length_app. simpl. lia.
Qed.

(** A search that matches nothing leaves the variables as they were. *)
Lemma dfsDone_stay lines depth v :
  dfsReady playedSAN depth v ->
  (forall n, Spells lines (take n (drop depth playedSAN)) -> n = 0) ->
  dfsDone playedSAN lines depth v (false, v).
Proof.
  intros (Hd & Hle & Hpre & Hcor) Hnone. unfold dfsDone; simpl.
  repeat split; try tauto; try lia.
  intros n _ Hs. rewrite (Hnone n Hs). lia.
Qed.

Lemma take_drop_typed depth played n :
  playedSAN !! depth = Some played ->
  take (S n) (drop depth playedSAN)
    = played :: take n (drop (S depth) playedSAN).
Proof. intros H. rewrite (drop_S _ _ _ H). reflexivity. Qed.

Lemma take_drop_nil depth n :
  depth < length playedSAN ->
  take n (drop depth playedSAN) = [] -> n = 0.
Proof.
  intros Hd H. apply take_nil_inv in H as [?|H]; [assumption|].
  apply (f_equal length) in H. rewrite length_drop in H. simpl in H. lia.
Qed.

(** [dfs] over a list of siblings, given the same of each sibling. *)
Lemma dfs_done lines :
  Forall (fun line =>
            forall depth v,
              dfsReady playedSAN depth v ->
              dfsDone playedSAN [line] depth v
                (dfsVisit playedSAN depth line v)) lines ->
  forall depth v,
    dfsReady playedSAN depth v ->
    dfsDone playedSAN lines depth v (dfs playedSAN lines depth v).
Proof.
  induction 1 as [|line rest Hline _ IH]; intros depth v Hready; simpl.
  - apply dfsDone_stay; [assumption|].
    intros n Hs. apply Spells_nil_inv in Hs.
    destruct Hready as (Hd & _). eapply take_drop_nil; eassumption.
  - specialize (Hline depth v Hready).
    destruct (dfsVisit playedSAN depth line v) as [found v'].
    destruct Hline as (Hpre' & Hgrow' & Hcor' & Hcover' & Hgot' & Hall').
    simpl in *.
    assert (Hsingle : forall moves,
               Spells [line] moves -> Spells (line :: rest) moves).
    { intros moves. apply Spells_mono. intros l Hl.
      apply list_elem_of_singleton in Hl as ->. apply elem_of_cons. auto. }
    assert (Hrest : forall moves,
               Spells rest moves -> Spells (line :: rest) moves).
    { intros moves. apply Spells_mono. intros l Hl.
      apply elem_of_cons. auto. }
    destruct found.
    + unfold dfsDone; simpl. repeat split; try tauto.
      * intros n Hn _. rewrite (Hall' eq_refl).
        destruct Hready as (Hd & _). lia.
      * destruct Hgot' as [?|(n & ? & ? & ?)]; [left; assumption|].
        right. exists n. auto.
    + destruct Hready as (Hd & Hle & Hpre & Hcor).
      assert (Hready' : dfsReady playedSAN depth v').
      { unfold dfsReady. repeat split; try tauto; lia. }
      specialize (IH depth v' Hready').
      destruct (dfs playedSAN rest depth v') as [found'' v''].
      destruct IH as (Hpre'' & Hgrow'' & Hcor'' & Hcover'' & Hgot'' & Hall'').
      simpl in *. unfold dfsDone; simpl. repeat split; try tauto; try lia.
      * intros n Hn Hs. apply Spells_cons_split in Hs as [Hs|Hs].
        -- specialize (Hcover' n Hn Hs). lia.
        -- apply Hcover''; assumption.
      * destruct Hgot'' as [Heq|(n & ? & ? & ?)].
        -- destruct Hgot' as [?|(n & ? & ? & ?)]; [left; lia|].
           right. exists n. repeat split; [assumption|lia|auto].
        -- right. exists n. auto.
Qed.

(** One sibling: the body of the loop of [dfs]. *)
Lemma dfsVisit_done line :
  forall depth v,
    dfsReady playedSAN depth v ->
    dfsDone playedSAN [line] depth v (dfsVisit playedSAN depth line v).
Proof.
  induction line as [san children tick IH] using Line_forest_ind.
  intros depth v Hready. rewrite dfsVisit_eq. cbn [SAN Children IsTick].
  pose proof Hready as (Hd & Hle & Hpre & Hcor).
  destruct (lookup_lt_is_Some_2 playedSAN depth Hd) as [played Hplayed].
  rewrite Hplayed.
  destruct (String.eqb_spec san "") as [Hempty|Hne].
  { apply dfsDone_stay; [assumption|]. intros [|n] Hs; [reflexivity|].
    rewrite (take_drop_typed _ _ _ Hplayed) in Hs.
    apply Spells_single_inv in Hs as (_ & Hcontra & _).
    simpl in Hcontra. congruence. }
  destruct (String.eqb_spec san played) as [->|Hdiff]; cycle 1.
  { apply dfsDone_stay; [assumption|]. intros [|n] Hs; [reflexivity|].
    rewrite (take_drop_typed _ _ _ Hplayed) in Hs.
    apply Spells_single_inv in Hs as (Heq & _).
    simpl in Heq. congruence. }
  destruct (recordMatch_prefix depth played (matchedLine v) Hpre Hle Hplayed)
    as [Hrec Hreclen].
  pose proof (prefix_length_le _ Hpre) as Hvlen.
  cbv zeta.
  set (v1 := mkDfsVars _ _ _).
  assert (Hml1 : matchedLine v1 = take (length (matchedLine v1)) playedSAN).
  { subst v1; cbn [matchedLine]. rewrite Hreclen. exact Hrec. }
  assert (Hlen1 : length (matchedLine v1)
                  = Nat.max (length (matchedLine v)) (S depth)).
  { subst v1; cbn [matchedLine]. exact Hreclen. }
  assert (Hcor1 : dfsCorrect v1 = true <-> matchedLine v1 <> []).
  { assert (matchedLine v1 <> []) as Hnn.
    { intros Hnil. rewrite Hnil in Hlen1. simpl in Hlen1. lia. }
    split; [intros _; exact Hnn|intros _].
    subst v1; cbn [dfsCorrect].
    destruct (Nat.eqb_spec depth 0) as [|Hpos]; [reflexivity|].
    apply Hcor. intros Hnil. rewrite Hnil in Hle. simpl in Hle. lia. }
  assert (Hown : Spells [mkLine played children tick]
                   (take 1 (drop depth playedSAN))).
  { rewrite (take_drop_typed _ _ _ Hplayed), take_0.
    apply (Spells_cons _ (mkLine played children tick));
      [apply list_elem_of_singleton; reflexivity|exact Hne|constructor]. }
  assert (Hgot1 :
    length (matchedLine v1) = length (matchedLine v) \/
    exists n,
      n <= length playedSAN - depth /\
      length (matchedLine v1) = depth + n /\
      Spells [mkLine played children tick]
        (take n (drop depth playedSAN))).
  { destruct (Nat.lt_ge_cases depth (length (matchedLine v))).
    - left. lia.
    - right. exists 1. repeat split; [lia|lia|exact Hown]. }
  replace (depth + 1) with (S depth) by lia.
  destruct (Nat.ltb_spec (S depth) (length playedSAN)) as [Hmore|Hlast];
    cbn [andb].
  - destruct (Nat.ltb_spec 0 (length children)) as [Hkids|Hleaf].
    + assert (Hready1 : dfsReady playedSAN (S depth) v1).
      { unfold dfsReady. repeat split; try tauto; lia. }
      pose proof (dfs_done children IH (S depth) v1 Hready1) as Hdone.
      destruct (dfs playedSAN children (S depth) v1) as [found v'].
      destruct Hdone as (Hpre' & Hgrow' & Hcor' & Hcover' & Hgot' & Hall').
      cbn [fst snd] in *. unfold dfsDone; cbn [fst snd].
      repeat split; try tauto; try lia.
      * intros [|n] Hn Hs; [lia|].
        rewrite (take_drop_typed _ _ _ Hplayed) in Hs.
        apply Spells_single_inv in Hs as (_ & _ & Hbelow).
        cbn [Children] in Hbelow.
        specialize (Hcover' n ltac:(lia) Hbelow). lia.
      * destruct Hgot' as [Heq|(n & Hn & Hlen & Hs)].
        -- destruct Hgot1 as [?|(n & ? & ? & ?)]; [left; lia|].
           right. exists n. repeat split; [assumption|lia|assumption].
        -- right. exists (S n). repeat split; [lia|lia|].
           rewrite (take_drop_typed _ _ _ Hplayed).
           apply (Spells_cons _ (mkLine played children tick));
             [apply list_elem_of_singleton; reflexivity|exact Hne|exact Hs].
    + destruct (Nat.leb_spec (length playedSAN) (S depth)); [lia|].
      assert (children = []) as ->
        by (destruct children; simpl in *; [reflexivity|lia]).
      unfold dfsDone; cbn [fst snd].
      repeat split; try tauto; try lia; try discriminate.
      intros [|n] Hn Hs; [lia|].
      rewrite (take_drop_typed _ _ _ Hplayed) in Hs.
      apply Spells_single_inv in Hs as (_ & _ & Hbelow).
      cbn [Children] in Hbelow. apply Spells_nil_inv in Hbelow.
      apply take_drop_nil in Hbelow; [lia|exact Hmore].
  - destruct (Nat.leb_spec (length playedSAN) (S depth)); [|lia].
    unfold dfsDone; cbn [fst snd].
    repeat split; try tauto; try lia.
Qed.

End DepthFirst.

(** *** Nodes without a move *)

Lemma pruneLine_eq line :
  pruneLine line
  = mkLine (SAN line) (pruneForest (Children line)) (IsTick line).
Proof.
  destruct line as [san children tick]. reflexivity.
Qed.

Lemma dfs_all_empty playedSAN lines depth v :
  pruneForest lines = [] -> dfs playedSAN lines depth v = (false, v).
Proof.
  induction lines as [|l ls IH]; [reflexivity|]. cbn.
  destruct (String.eqb_spec (SAN l) "") as [Hl|]; [|discriminate].
  intros H. rewrite (dfsVisit_empty_move _ _ _ _ Hl). apply IH, H.
Qed.

Lemma dfs_prune playedSAN lines :
  Forall (fun line =>
            forall depth v,
              dfsVisit playedSAN depth (pruneLine line) v
              = dfsVisit playedSAN depth line v) lines ->
  forall depth v,
    dfs playedSAN (pruneForest lines) depth v = dfs playedSAN lines depth v.
Proof.
  induction 1 as [|l ls Hl _ IH]; intros depth v; [reflexivity|]. cbn.
  destruct (String.eqb_spec (SAN l) "") as [Hempty|Hmove].
  - rewrite (dfsVisit_empty_move _ _ _ _ Hempty). apply IH.
  - cbn [dfs]. rewrite Hl.
    destruct (dfsVisit playedSAN depth l v) as [[] v']; [reflexivity|apply IH].
Qed.

Lemma dfsVisit_prune playedSAN line :
  forall depth v,
    dfsVisit playedSAN depth (pruneLine line) v
    = dfsVisit playedSAN depth line v.
Proof.
  induction line as [san children tick IH] using Line_forest_ind.
  intros depth v. rewrite pruneLine_eq, !dfsVisit_eq. cbn [SAN Children IsTick].
  destruct (String.eqb san ""); [reflexivity|].
  destruct (playedSAN !! depth) as [played|]; [|reflexivity].
  destruct (String.eqb san played); [|reflexivity].
  cbv zeta.
  destruct (Nat.ltb_spec (depth + 1) (length playedSAN)) as [Hmore|Hlast];
    cbn [andb]; [|reflexivity].
  destruct (Nat.leb_spec (length playedSAN) (depth + 1)); [lia|].
  destruct (pruneForest children) as [|c cs] eqn:Hpruned.
  - cbn [length Nat.ltb Nat.leb].
    rewrite (dfs_all_empty _ _ _ _ Hpruned).
    destruct (length children); reflexivity.
  - replace (0 <? length children)%nat with true.
    + cbn [length Nat.ltb Nat.leb]. rewrite <- Hpruned.
      apply dfs_prune, IH.
    + destruct children; [discriminate|reflexivity].
Qed.

(** The legacy grader never matches a node without a move: it grades a
    forest exactly as it grades the forest with those nodes, and what is
    below them, cut off. *)
Theorem gradeSolution_ignores_empty_moves
    (puzzle : Puzzle) (playedSAN : list string) :
  gradeSolution (prunePuzzle puzzle) playedSAN
  = gradeSolution puzzle playedSAN.
Proof.
  unfold gradeSolution, prunePuzzle. cbn [PuzzleSolution Lines].
  destruct (Nat.eqb (length playedSAN) 0); [reflexivity|].
  rewrite dfs_prune; [reflexivity|].
  apply Forall_forall. intros line _. apply dfsVisit_prune.
Qed.

(** C5 as stated fails: on two first moves "e4" with different replies,
    typing the second reply makes [gradeSolution] leave the first "e4" after
    the mismatch below it and match the second one, while the search without
    backtracking of the specification stops under the first. *)
Lemma gradeSolution_backtracks :
  gradeSolution branchingPuzzle ["e4"; "c5"] = (true, 2, ["e4"; "c5"]) /\
  specFirstMatchGrade branchingPuzzle ["e4"; "c5"] = (true, 1, ["e4"]) /\
  gradeSolution branchingPuzzle ["e4"; "c5"]
    <> specFirstMatchGrade branchingPuzzle ["e4"; "c5"].
Proof. repeat split. discriminate. Qed.

(** C5, amended.  [gradeSolution] tries the siblings in order and goes back
    to later siblings after a mismatch below a matching one: the
    [matchedLine] it returns is the longest prefix of the typed moves that
    some path of the forest spells (a prefix of the typed list, spelled by
    the forest, and no shorter than any spelled prefix), and [correct] says
    whether that prefix is non-empty. *)
Theorem gradeSolution_longest_spelled_prefix
    (puzzle : Puzzle) (playedSAN : list string) :
  let forest := Lines (PuzzleSolution puzzle) in
  let r := gradeSolution puzzle playedSAN in
  r.2 = take (length r.2) playedSAN /\
  Spells forest r.2 /\
  (forall n,
      n <= length playedSAN ->
      Spells forest (take n playedSAN) -> n <= length r.2) /\
  (r.1.1 = true <-> r.2 <> []).
Proof.
  intros forest r. subst r. unfold gradeSolution. fold forest.
  generalize forest. clear forest. intros forest.
  destruct (Nat.eqb_spec (length playedSAN) 0) as [Hnil|Hpos].
  - cbn [fst snd]. repeat split; try constructor; try discriminate;
      try congruence.
    intros n Hn _. simpl. lia.
  - assert (Hready : dfsReady playedSAN 0 (mkDfsVars false 0 [])).
    { unfold dfsReady; cbn. repeat split; try lia; try discriminate.
      congruence. }
    pose proof (dfs_done playedSAN forest) as Hdone.
    specialize (Hdone ltac:(apply Forall_forall; intros line _;
                            apply dfsVisit_done) 0 _ Hready).
    destruct (dfs playedSAN forest 0 (mkDfsVars false 0 [])) as [found v].
    destruct Hdone as (Hpre & _ & Hcor & Hcover & Hgot & _).
    cbn [fst snd matchedLine] in *. rewrite drop_0 in *.
    repeat split; try tauto.
    + destruct Hgot as [Hlen|(n & _ & Hlen & Hs)].
      * simpl in Hlen. destruct (matchedLine v); [constructor|discriminate].
      * rewrite Hpre, Hlen. exact Hs.
    + intros n Hn Hs. apply (Hcover n); [lia|exact Hs].
Qed.

(** C4, flat mode: a node without a move is matched by a typed entry that
    normalizes to the empty string, is counted in [DepthMatched] and earns
    the first-move point and its tick. *)
Lemma gradeLine_matches_empty_move :
  gradeLine placeholderPuzzle ["!"]
    = mkGradeLineResponse true 2 [0] 1 None [""] [] /\
  gradeLine placeholderPuzzle [""]
    = mkGradeLineResponse true 2 [0] 1 None [""] [] /\
  gradeSolution placeholderPuzzle [""] = (false, 0, []).
Proof. repeat split. Qed.

(** ** The progress recorder *)

Section Progress.

Implicit Types (db : gmap (string * string) ProgressRow).
Implicit Types (row : ProgressRow) (c : SaveCall).

Lemma saveProgress_insert now u p typed s d db :
  db !! (u, p) = None ->
  saveProgress now u p typed s d db !! (u, p)
    = Some (mkProgressRow 1 s None typed now now).
Proof. intros H. unfold saveProgress. rewrite H. apply lookup_insert_eq. Qed.

Lemma saveProgress_update now u p typed s d db row :
  db !! (u, p) = Some row ->
  saveProgress now u p typed s d db !! (u, p)
    = Some (mkProgressRow (attempts row + 1) s
              (if (3 <=? d)%Z then Some now else solved_at row)
              typed (created_at row) now).
Proof. intros H. unfold saveProgress. rewrite H. apply lookup_insert_eq. Qed.

Lemma saveProgress_other now u p typed s d db k :
  k <> (u, p) -> saveProgress now u p typed s d db !! k = db !! k.
Proof.
  intros H. unfold saveProgress.
  destruct (db !! (u, p)); apply lookup_insert_ne; congruence.
Qed.

(** A row, once there, stays, and a time of solving, once set, stays set,
    over one call. *)
Lemma saveCall_keeps_solved c db k row :
  db !! k = Some row ->
  is_Some (solved_at row) ->
  exists row',
    saveCall c db !! k = Some row' /\ is_Some (solved_at row').
Proof.
  intros Hrow Hsolved. unfold saveCall.
  destruct (decide (k = (callUser c, callPuzzle c))) as [->|Hne].
  - rewrite (saveProgress_update _ _ _ _ _ _ _ _ Hrow).
    eexists; split; [reflexivity|]. cbn [solved_at].
    destruct (3 <=? callDepth c)%Z; [eexists; reflexivity|assumption].
  - rewrite saveProgress_other by assumption. eauto.
Qed.

Lemma saveCalls_keep_solved cs :
  forall db k row,
    db !! k = Some row ->
    is_Some (solved_at row) ->
    exists row',
      saveCalls cs db !! k = Some row' /\ is_Some (solved_at row').
Proof.
  induction cs as [|c cs IH]; intros db k row Hrow Hsolved; cbn.
  - eauto.
  - destruct (saveCall_keeps_solved c db k row Hrow Hsolved)
      as (row1 & Hrow1 & Hsolved1).
    exact (IH _ _ _ Hrow1 Hsolved1).
Qed.

End Progress.

(** C3 as stated fails: the second attempt sets [solved_at] to 100, and the
    third, again three moves deep, overwrites it with 200. *)
Lemma saveProgress_overwrites_solved_at :
  solved_at <$> (saveCalls (take 2 threeAttempts) ∅
                   !! ("default_user", "wpm_easy_001")) = Some (Some 100%Z) /\
  solved_at <$> (saveCalls threeAttempts ∅
                   !! ("default_user", "wpm_easy_001")) = Some (Some 200%Z).
Proof. split; vm_compute; reflexivity. Qed.

(** C3, amended.  [solved_at] is never cleared, but it is not written once
    only: the call that inserts the row leaves it unset whatever
    [depthMatched] is; a call on an existing row sets it to the current time
    when [depthMatched >= 3], set before or not, and leaves it as it was
    otherwise; calls for other pairs do not touch the row; and over any run
    of calls a row with [solved_at] set keeps it set. *)
Theorem saveProgress_solved_at_rule :
  (forall now u p typed s d (db : gmap (string * string) ProgressRow),
      db !! (u, p) = None ->
      solved_at <$> (saveProgress now u p typed s d db !! (u, p))
        = Some None) /\
  (forall now u p typed s d (db : gmap (string * string) ProgressRow) row,
      db !! (u, p) = Some row ->
      solved_at <$> (saveProgress now u p typed s d db !! (u, p))
        = Some (if (3 <=? d)%Z then Some now else solved_at row)) /\
  (forall now u p typed s d (db : gmap (string * string) ProgressRow) k,
      k <> (u, p) ->
      saveProgress now u p typed s d db !! k = db !! k) /\
  (forall cs (db : gmap (string * string) ProgressRow) k row,
      db !! k = Some row ->
      is_Some (solved_at row) ->
      exists row',
        saveCalls cs db !! k = Some row' /\ is_Some (solved_at row')).
Proof.
  repeat split.
  - intros. erewrite saveProgress_insert by eassumption. reflexivity.
  - intros. erewrite saveProgress_update by eassumption. reflexivity.
  - intros. apply saveProgress_other. assumption.
  - intros. eapply saveCalls_keep_solved; eassumption.
Qed.

Lemma saveProgress_solved_at_rule_witness :
  solved_at <$>
    (saveProgress 200 "u" "p" ["e4"] 1 3
       {[ ("u", "p") := mkProgressRow 1 1 (Some 100%Z) [] 50 100 ]}
       !! ("u", "p"))
  = Some (Some 200%Z).
Proof.
  apply (proj1 (proj2 saveProgress_solved_at_rule)
           200%Z "u" "p" ["e4"] 1%Z 3%Z
           {[ ("u", "p") := mkProgressRow 1 1 (Some 100%Z) [] 50 100 ]}
           (mkProgressRow 1 1 (Some 100%Z) [] 50 100)).
  apply lookup_singleton_eq.
Defined.

(** C8.  The first call for a pair creates its row with [attempts = 1];
    every later call adds one to [attempts]; either way the row's [score]
    and typed moves are those of the call, whatever the stored score was. *)
Theorem saveProgress_counts_and_overwrites
    (now : Z) (u p : string) (typed : list string) (s d : Z)
    (db : gmap (string * string) ProgressRow) :
  let db' := saveProgress now u p typed s d db in
  (db !! (u, p) = None ->
   exists row',
     db' !! (u, p) = Some row' /\
     attempts row' = 1%Z /\ score row' = s /\ typed_json row' = typed) /\
  (forall row,
      db !! (u, p) = Some row ->
      exists row',
        db' !! (u, p) = Some row' /\
        attempts row' = (attempts row + 1)%Z /\
        score row' = s /\ typed_json row' = typed).
Proof.
  split.
  - intros H. eexists. split; [apply saveProgress_insert; exact H|].
    repeat split.
  - intros row H. eexists. split; [apply saveProgress_update; exact H|].
    repeat split.
Qed.

(** Over a run of calls the attempts of a pair are the attempts it had plus
    the number of calls for it. *)
Lemma saveCalls_attempts cs :
  forall (db : gmap (string * string) ProgressRow) k,
    attempts <$> (saveCalls cs db !! k) =
    match db !! k with
    | Some row => Some (attempts row + Z.of_nat (callsFor k cs))%Z
    | None =>
        if Nat.eqb (callsFor k cs) 0 then None
        else Some (Z.of_nat (callsFor k cs))
    end.
Proof.
  induction cs as [|c cs IH]; intros db k; cbn [callsFor].
  - cbn. destruct (db !! k) as [row|]; cbn; [|reflexivity].
    f_equal. lia.
  - change (saveCalls (c :: cs) db) with (saveCalls cs (saveCall c db)).
    rewrite IH. unfold saveCall.
    destruct (bool_decide_reflect ((callUser c, callPuzzle c) = k))
      as [<-|Hne].
    + destruct (db !! (callUser c, callPuzzle c)) as [row|] eqn:Hrow.
      * rewrite (saveProgress_update _ _ _ _ _ _ _ _ Hrow). cbn [attempts].
        f_equal. lia.
      * rewrite (saveProgress_insert _ _ _ _ _ _ _ Hrow). cbn [attempts].
        replace (1 + callsFor _ cs =? 0)%nat with false
          by (symmetry; apply Nat.eqb_neq; lia).
        f_equal. lia.
    + rewrite saveProgress_other by congruence.
      destruct (db !! k); reflexivity.
Qed.

(** ** The daily-plan sweep *)

Section DailyPlansFacts.

Context {World Plan Err : Type}.
Context (selectActiveUsers : World -> Err + list string).
Context (GetOrCreateDailyPlan : string -> World -> (Err + Plan) * World).
Context (BuildTodayBatch :
           string -> Plan -> World -> (Err + list string) * World).
Context (setTodayBatch : Plan -> list string -> Plan).
Context (Marshal : Plan -> string).
Context (execUpdatePlan : string -> string -> World -> option Err * World).

Local Abbreviation planUser' :=
  (planUser World Plan Err GetOrCreateDailyPlan BuildTodayBatch
     setTodayBatch Marshal execUpdatePlan).
Local Abbreviation sweepUsers' :=
  (sweepUsers World Plan Err GetOrCreateDailyPlan BuildTodayBatch
     setTodayBatch Marshal execUpdatePlan).
Local Abbreviation updateDailyPlans' :=
  (updateDailyPlans World Plan Err selectActiveUsers GetOrCreateDailyPlan
     BuildTodayBatch setTodayBatch Marshal execUpdatePlan).

(** Whatever happens to a user, exactly one line is logged, and it names
    the user. *)
Lemma planUser_line userID w :
  lineUser Err (planUser' userID w).2 = Some userID.
Proof.
  unfold planUser.
  destruct (GetOrCreateDailyPlan userID w) as [[e|plan] w1]; [reflexivity|].
  destruct (BuildTodayBatch userID plan w1) as [[e|batch] w2]; [reflexivity|].
  destruct (execUpdatePlan _ userID w2) as [[e|] w3]; reflexivity.
Qed.

Lemma sweepUsers_app before after w :
  sweepUsers' (before ++ after) w =
  let '(w1, lines1) := sweepUsers' before w in
  let '(w2, lines2) := sweepUsers' after w1 in
  (w2, lines1 ++ lines2).
Proof.
  revert w. induction before as [|u before IH]; intros w; cbn [sweepUsers app].
  - destruct (sweepUsers' after w). reflexivity.
  - destruct (planUser' u w) as [w1 line]. rewrite IH.
    destruct (sweepUsers' before w1) as [w2 lines1].
    destruct (sweepUsers' after w2) as [w3 lines2]. reflexivity.
Qed.

Lemma sweepUsers_lines userIDs :
  forall w, lineUser Err <$> (sweepUsers' userIDs w).2 = Some <$> userIDs.
Proof.
  induction userIDs as [|u rest IH]; intros w; cbn [sweepUsers];
    [reflexivity|].
  pose proof (planUser_line u w) as Hline.
  destruct (planUser' u w) as [w1 line].
  specialize (IH w1). destruct (sweepUsers' rest w1) as [w2 lines].
  cbn in *. rewrite Hline, IH. reflexivity.
Qed.

(** The turn of one user, case by case: a failing step logs its error for
    the user and ends the turn with the store that step left, so that what
    comes after it in the body, the update above all, is not run. *)
Lemma planUser_cases userID w :
  planUser' userID w =
  match GetOrCreateDailyPlan userID w with
  | (inl e, w1) => (w1, ErrorGettingPlan Err userID e)
  | (inr plan, w1) =>
      match BuildTodayBatch userID plan w1 with
      | (inl e, w2) => (w2, ErrorBuildingBatch Err userID e)
      | (inr todayBatch, w2) =>
          match
            execUpdatePlan (Marshal (setTodayBatch plan todayBatch))
              userID w2
          with
          | (Some e, w3) => (w3, ErrorUpdatingPlan Err userID e)
          | (None, w3) => (w3, UpdatedPlan Err userID (length todayBatch))
          end
      end
  end.
Proof.
  unfold planUser.
  destruct (GetOrCreateDailyPlan userID w) as [[e|plan] w1]; [reflexivity|].
  destruct (BuildTodayBatch userID plan w1) as [[e|batch] w2];
    reflexivity.
Qed.

(** C9.  A failure while building or persisting one user's plan skips that
    user and nothing more.  Take a user anywhere in the list, the users
    before swept.  When [GetOrCreateDailyPlan] fails, the sweep logs that
    error for the user, runs neither [BuildTodayBatch] nor the update for
    the user, and sweeps the users after from the store the failed call
    left.  When [BuildTodayBatch] fails, it logs that error, runs no
    update, and goes on likewise.  When the update fails, it logs that
    error and goes on; when all three succeed, it logs the plan written.
    So the log has one line per user, in order; [updateDailyPlans] sweeps
    every user it selected ("default_user" when it selected none), and only
    a failure of the selection itself ends the run, with that error logged
    and the store as it was. *)
Theorem updateDailyPlans_isolates_failures :
  (forall before userID after w,
      let '(w0, lines1) := sweepUsers' before w in
      sweepUsers' (before ++ userID :: after) w =
      match GetOrCreateDailyPlan userID w0 with
      | (inl e, w1) =>
          let '(w', lines3) := sweepUsers' after w1 in
          (w', lines1 ++ ErrorGettingPlan Err userID e :: lines3)
      | (inr plan, w1) =>
          match BuildTodayBatch userID plan w1 with
          | (inl e, w2) =>
              let '(w', lines3) := sweepUsers' after w2 in
              (w', lines1 ++ ErrorBuildingBatch Err userID e :: lines3)
          | (inr todayBatch, w2) =>
              match
                execUpdatePlan (Marshal (setTodayBatch plan todayBatch))
                  userID w2
              with
              | (Some e, w3) =>
                  let '(w', lines3) := sweepUsers' after w3 in
                  (w', lines1 ++ ErrorUpdatingPlan Err userID e :: lines3)
              | (None, w3) =>
                  let '(w', lines3) := sweepUsers' after w3 in
                  (w',
                   lines1
                   ++ UpdatedPlan Err userID (length todayBatch) :: lines3)
              end
          end
      end) /\
  (forall userIDs w,
      lineUser Err <$> (sweepUsers' userIDs w).2 = Some <$> userIDs) /\
  (forall w,
      match selectActiveUsers w with
      | inl e => updateDailyPlans' w = (w, [ErrorGettingUsers Err e])
      | inr userIDs =>
          let swept :=
            if Nat.eqb (length userIDs) 0 then ["default_user"]
            else userIDs in
          updateDailyPlans' w = sweepUsers' swept w
          /\ lineUser Err <$> (updateDailyPlans' w).2 = Some <$> swept
      end).
Proof.
  repeat split.
  - intros before userID after w. rewrite sweepUsers_app.
    destruct (sweepUsers' before w) as [w0 lines1]. cbn [sweepUsers].
    rewrite planUser_cases.
    destruct (GetOrCreateDailyPlan userID w0) as [[e|plan] w1].
    { destruct (sweepUsers' after w1) as [w' lines3]. reflexivity. }
    destruct (BuildTodayBatch userID plan w1) as [[e|batch] w2].
    { destruct (sweepUsers' after w2) as [w' lines3]. reflexivity. }
    destruct (execUpdatePlan (Marshal (setTodayBatch plan batch)) userID w2)
      as [[e|] w3];
      destruct (sweepUsers' after w3) as [w' lines3]; reflexivity.
  - intros. apply sweepUsers_lines.
  - intros w. unfold updateDailyPlans.
    destruct (selectActiveUsers w) as [e|userIDs]; [reflexivity|].
    split; [reflexivity|apply sweepUsers_lines].
Qed.

End DailyPlansFacts.

(** The sweep run on five users, two of whom fail: the three others get
    their plans written, in order. *)
Example demoSweep_run :
  demoSweep ["alice"; "bob"; "carol"; "dave"; "erin"] []
  = (["alice"; "carol"; "erin"],
     [UpdatedPlan string "alice" 2;
      ErrorGettingPlan string "bob" "no active cycle";
      UpdatedPlan string "carol" 2;
      ErrorBuildingBatch string "dave" "cycle deleted";
      UpdatedPlan string "erin" 2]).
Proof. reflexivity. Qed.

(** * Properties of the further parts *)

(** ** The flat grader in closed form *)

Section GradeLineClosedForm.

Variable lines : list Line.

(** The loop entered at position [i] with no mistake noted. *)
Lemma gradeLineLoop_closed typed :
  forall i v,
    earliestMistake v = None ->
    let d := matchedPrefix (drop i lines) typed in
    gradeLineLoop lines i typed v =
    mkLineVars
      (if Nat.eqb i 0 && Nat.ltb 0 d then true else correct v)
      (ticksMatched v ++ tickPositions i (take d (drop i lines)))
      (if Nat.eqb d 0 then depthMatched v else i + d)
      (if Nat.eqb d (length typed) then None else Some (i + d))
      (bestLine v ++ map SAN (take d (drop i lines))).
Proof.
  induction typed as [|t typed IH]; intros i v Hm; cbn zeta.
  - destruct (drop i lines); cbn; rewrite ?andb_false_r, !app_nil_r;
      destruct v; cbn in *; subst; reflexivity.
  - cbn [gradeLineLoop].
    destruct (lines !! i) as [l|] eqn:Hl.
    + rewrite (drop_S _ _ _ Hl). cbn [matchedPrefix].
      destruct (String.eqb (normalizeSAN t) (normalizeSAN (SAN l))).
      * rewrite IH by exact Hm. cbn [correct ticksMatched depthMatched
          earliestMistake bestLine length take map tickPositions].
        set (d := matchedPrefix (drop (S i) lines) typed).
        replace (S i + d) with (i + S d) by lia.
        f_equal.
        -- destruct (Nat.eqb i 0); reflexivity.
        -- destruct (IsTick l); rewrite <- ?app_assoc; reflexivity.
        -- destruct d; cbn; lia.
        -- rewrite <- app_assoc. reflexivity.
      * unfold noteMistake. rewrite Hm. cbn.
        rewrite andb_false_r, Nat.add_0_r, !app_nil_r. reflexivity.
    + apply lookup_ge_None in Hl. rewrite (drop_ge _ _ Hl). cbn.
      unfold noteMistake. rewrite Hm.
      rewrite andb_false_r, Nat.add_0_r, !app_nil_r. reflexivity.
Qed.

End GradeLineClosedForm.

(** What [gradeLine] returns, without the loop: [DepthMatched] is the
    number of leading typed moves that match, [BestLine] the solution's own
    first [DepthMatched] moves, [TicksMatched] the tick positions below
    [DepthMatched] in increasing order, and [EarliestMistake] is nil when
    every typed move matched and [DepthMatched] otherwise. *)
Theorem gradeLine_closed_form (puzzle : Puzzle) (typedSAN : list string) :
  let lines := Lines (PuzzleSolution puzzle) in
  let d := matchedPrefix lines typedSAN in
  gradeLine puzzle typedSAN =
  mkGradeLineResponse
    (Nat.ltb 0 d)
    (if Nat.ltb 0 d then 1 + length (tickPositions 0 (take d lines)) else 0)
    (tickPositions 0 (take d lines))
    d
    (if Nat.eqb d (length typedSAN) then None else Some d)
    (map SAN (take d lines))
    (Ticks puzzle).
Proof.
  intros lines d. unfold gradeLine. fold lines.
  destruct typedSAN as [|t typed].
  - subst d. destruct lines; reflexivity.
  - cbn [length Nat.eqb].
    rewrite (gradeLineLoop_closed lines (t :: typed) 0
               (mkLineVars false [] 0 None []) eq_refl).
    rewrite drop_0. fold d. cbn [correct ticksMatched depthMatched
      earliestMistake bestLine app Nat.eqb andb Nat.add].
    destruct d; reflexivity.
Qed.

Lemma matchedPrefix_le lines typed :
  matchedPrefix lines typed <= length typed /\
  matchedPrefix lines typed <= length lines.
Proof.
  revert typed. induction lines as [|l lines IH]; intros [|t typed]; cbn;
    try lia.
  destruct (String.eqb _ _); [|lia]. specialize (IH typed). lia.
Qed.

Lemma matchedPrefix_normal lines :
  forall typed typed',
    Forall2 (fun a b => normalizeSAN a = normalizeSAN b) typed typed' ->
    matchedPrefix lines typed = matchedPrefix lines typed'.
Proof.
  induction lines as [|l lines IH]; intros typed typed' H;
    destruct H as [|t t' typed typed' Ht H]; cbn [matchedPrefix];
    try reflexivity.
  rewrite Ht, (IH _ _ H). reflexivity.
Qed.

Lemma matchedPrefix_stuck lines :
  forall typed more,
    matchedPrefix lines typed < length typed ->
    matchedPrefix lines (typed ++ more) = matchedPrefix lines typed.
Proof.
  induction lines as [|l lines IH]; intros [|t typed] more H;
    cbn [matchedPrefix app length] in *; try lia.
  destruct (String.eqb _ _); [|reflexivity].
  rewrite IH by lia. reflexivity.
Qed.

Lemma tickPositions_bounds lines :
  forall i,
    Forall (fun p => i <= p < i + length lines) (tickPositions i lines) /\
    length (tickPositions i lines) <= length lines.
Proof.
  induction lines as [|l lines IH]; intros i; cbn [tickPositions length].
  - split; [constructor|lia].
  - destruct (IH (S i)) as [Hall Hlen].
    assert (Forall (fun p => i <= p < i + S (length lines))
              (tickPositions (S i) lines)) as Hall'.
    { eapply Forall_impl; [exact Hall|]. cbn. intros p Hp. lia. }
    destruct (IsTick l); cbn [length]; split; try lia; try assumption.
    constructor; [lia|assumption].
Qed.

(** Typed moves are compared by their normal forms only: two typed lists
    with the same normal forms, move by move, are graded alike. *)
Theorem gradeLine_normal_forms_only
    (puzzle : Puzzle) (typedSAN typedSAN' : list string) :
  Forall2 (fun a b => normalizeSAN a = normalizeSAN b) typedSAN typedSAN' ->
  gradeLine puzzle typedSAN = gradeLine puzzle typedSAN'.
Proof.
  intros H. rewrite !gradeLine_closed_form. cbv zeta.
  rewrite <- (matchedPrefix_normal _ _ _ H), <- (Forall2_length _ _ _ H).
  reflexivity.
Qed.

Lemma gradeLine_normal_forms_only_witness :
  gradeLine (flatPuzzle sampleLines) ["1. e4!"; "1... E5"; "2. nf3+"]
  = gradeLine (flatPuzzle sampleLines) ["e4"; "e5"; "Nf3"].
Proof.
  apply gradeLine_normal_forms_only. repeat constructor.
Defined.

(** Whatever is typed after the first mistake is ignored. *)
Theorem gradeLine_ignores_after_mistake
    (puzzle : Puzzle) (typedSAN more : list string) :
  EarliestMistake (gradeLine puzzle typedSAN) <> None ->
  gradeLine puzzle (typedSAN ++ more) = gradeLine puzzle typedSAN.
Proof.
  rewrite !gradeLine_closed_form. cbv zeta. cbn [EarliestMistake].
  set (lines := Lines (PuzzleSolution puzzle)).
  destruct (matchedPrefix_le lines typedSAN) as [Hle _].
  destruct (Nat.eqb_spec (matchedPrefix lines typedSAN) (length typedSAN))
    as [|Hne]; [congruence|]. intros _.
  rewrite matchedPrefix_stuck by lia.
  rewrite length_app.
  destruct (Nat.eqb_spec (matchedPrefix lines typedSAN)
              (length typedSAN + length more)); [lia|reflexivity].
Qed.

Lemma gradeLine_ignores_after_mistake_witness :
  gradeLine (flatPuzzle sampleLines) (["e4"; "d5"] ++ ["Nf3"])
  = gradeLine (flatPuzzle sampleLines) ["e4"; "d5"].
Proof.
  apply gradeLine_ignores_after_mistake. discriminate.
Defined.

(** Bounds: no more moves are matched than were typed or than the solution
    has; the ticks matched lie below [DepthMatched]; the score is at most
    one more than [DepthMatched]. *)
Theorem gradeLine_bounds (puzzle : Puzzle) (typedSAN : list string) :
  let r := gradeLine puzzle typedSAN in
  DepthMatched r <= length typedSAN /\
  DepthMatched r <= length (Lines (PuzzleSolution puzzle)) /\
  Forall (fun p => p < DepthMatched r) (TicksMatched r) /\
  Score r <= 1 + DepthMatched r.
Proof.
  cbv zeta. rewrite gradeLine_closed_form. cbv zeta.
  cbn [DepthMatched TicksMatched Score].
  set (lines := Lines (PuzzleSolution puzzle)).
  set (d := matchedPrefix lines typedSAN).
  destruct (matchedPrefix_le lines typedSAN) as [H1 H2]. fold d in H1, H2.
  destruct (tickPositions_bounds (take d lines) 0) as [Hall Hlen].
  rewrite length_take in Hall, Hlen.
  repeat split; try assumption.
  - eapply Forall_impl; [exact Hall|]. cbn. intros p Hp. lia.
  - destruct (0 <? d)%nat; lia.
Qed.

(** ** The side to move of a FEN *)

Example Fields_runs : Fields "  a b   c " = ["a"; "b"; "c"].
Proof. reflexivity. Qed.

Example extractSideToMove_black :
  extractSideToMove "r1bqkb1r/pppp1ppp/2n2n2/4p2Q/2B1P3/8/PPPP1PPP/RNB1K1NR b - - 0 1"
  = "b".
Proof. reflexivity. Qed.

Lemma fieldsBytes_fields s : Forall isField (fieldsBytes s).
Proof.
  induction s as [|c s IH]; cbn [fieldsBytes]; [constructor|].
  destruct (GoBytes.isSpace c) eqn:Hc; [exact IH|].
  destruct s as [|d s'].
  - repeat constructor; [discriminate|exact Hc].
  - destruct (GoBytes.isSpace d) eqn:Hd.
    + constructor; [|exact IH]. repeat constructor; [discriminate|exact Hc].
    + destruct (fieldsBytes (d :: s')) as [|f fs].
      * repeat constructor; [discriminate|exact Hc].
      * inversion IH as [|? ? [Hf1 Hf2] Hfs]; subst.
        constructor; [|exact Hfs].
        split; [discriminate|constructor; assumption].
Qed.

(** A field followed by a white-space byte is the first field. *)
Lemma fieldsBytes_first f c s :
  isField f -> GoBytes.isSpace c = true ->
  fieldsBytes (f ++ c :: s) = f :: fieldsBytes s.
Proof.
  intros [Hne Hall] Hc. induction Hall as [|x f Hx Hall IH]; [congruence|].
  cbn [app fieldsBytes]. rewrite Hx.
  destruct f as [|y f].
  - cbn [app]. rewrite Hc. cbn [fieldsBytes]. rewrite Hc. reflexivity.
  - cbn [app] in *. inversion Hall as [|? ? Hy _]; subst. rewrite Hy.
    rewrite IH by discriminate. reflexivity.
Qed.

(** A field at the end of the text is the last field. *)
Lemma fieldsBytes_last f : isField f -> fieldsBytes f = [f].
Proof.
  intros [Hne Hall]. induction Hall as [|x f Hx Hall IH]; [congruence|].
  cbn [fieldsBytes]. rewrite Hx. destruct f as [|y f]; [reflexivity|].
  inversion Hall as [|? ? Hy _]; subst. rewrite Hy.
  rewrite IH by discriminate. reflexivity.
Qed.


Lemma extractSideToMove_bytes
    (board side : list ascii) (c1 c2 : ascii) (rest : list ascii) :
  isField board -> isField side ->
  GoBytes.isSpace c1 = true -> GoBytes.isSpace c2 = true ->
  extractSideToMove (of_bytes (board ++ c1 :: side ++ c2 :: rest))
  = of_bytes side.
Proof.
  intros Hb Hs H1 H2. unfold extractSideToMove.
  destruct board as [|b board]; [destruct Hb; congruence|].
  cbn [app string_of_list_ascii String.eqb]. cbv zeta.
  change (String b (of_bytes (board ++ c1 :: side ++ c2 :: rest)))
    with (of_bytes ((b :: board) ++ c1 :: side ++ c2 :: rest)).
  unfold Fields. rewrite bytes_of_bytes.
  rewrite (fieldsBytes_first _ _ _ Hb H1), (fieldsBytes_first _ _ _ Hs H2).
  reflexivity.
Qed.

(** On ASCII text, where [Fields] is what [strings.Fields] computes: for
    a text made of a board field, a space, a side field, a space and
    anything more, as [readPuzzlesFromFile] builds its FENs from two-field
    lines, the answer is the side field. *)
Theorem extractSideToMove_second_field (board side rest : string) :
  isASCII (board ++ " " ++ side ++ " " ++ rest)%string = true ->
  isField (bytes board) -> isField (bytes side) ->
  extractSideToMove (board ++ " " ++ side ++ " " ++ rest)%string = side.
Proof.
  intros _ Hb Hs.
  rewrite <- (of_bytes_bytes (board ++ " " ++ side ++ " " ++ rest)%string).
  rewrite !bytes_append. cbn [list_ascii_of_string app].
  rewrite (extractSideToMove_bytes _ _ " " " " _ Hb Hs eq_refl eq_refl).
  apply of_bytes_bytes.
Qed.

Lemma extractSideToMove_second_field_witness :
  extractSideToMove ("8/8/8/8/8/8/8/K6k" ++ " " ++ "b" ++ " " ++ "- - 0 1")
  = "b".
Proof.
  apply (extractSideToMove_second_field "8/8/8/8/8/8/8/K6k" "b" "- - 0 1").
  - reflexivity.
  - split; [discriminate|repeat constructor].
  - split; [discriminate|repeat constructor].
Defined.

(** ** The stored form of a puzzle *)

(** Storing and loading a puzzle gives the puzzle back; loading and storing
    a row gives the row back exactly when its [side_to_move] is what
    [extractSideToMove] reads off its FEN. *)
Theorem ToPuzzle_FromPuzzle :
  (forall puzzle, ToPuzzle (FromPuzzle puzzle) = puzzle) /\
  (forall pdb,
      FromPuzzle (ToPuzzle pdb) = pdb <->
      pdbSideToMove pdb = extractSideToMove (pdbFEN pdb)).
Proof.
  split.
  - intros [id difficulty fen solution ticks]. reflexivity.
  - intros [id difficulty fen side solution ticks].
    unfold FromPuzzle, ToPuzzle; cbn. split.
    + intros [= H]. symmetry. exact H.
    + intros ->. reflexivity.
Qed.

(** ** The grading handlers *)

(** [handleGradeLine] writes to [progress] only when it answers with a
    grade, and then only the row of "default_user" for the puzzle asked,
    which holds the grade's score and the typed moves; every refusal leaves
    the table as it was. *)
Theorem handleGradeLine_writes
    (body : option GradeLineRequest) (now : Z)
    (puzzles : gmap string PuzzleDB)
    (progress : gmap (string * string) ProgressRow) :
  let out := handleGradeLine body now puzzles progress in
  match out.1 with
  | Failed _ _ => out.2 = progress
  | Responded response =>
      exists req row,
        body = Some req /\
        out.2 !! ("default_user", PuzzleID req) = Some row /\
        score row = Z.of_nat (Score response) /\
        typed_json row = TypedSAN req /\
        forall k, k <> ("default_user", PuzzleID req) ->
                  out.2 !! k = progress !! k
  end.
Proof.
  unfold handleGradeLine. destruct body as [req|]; [|reflexivity].
  destruct (String.eqb (PuzzleID req) ""); [reflexivity|].
  destruct (puzzles !! PuzzleID req) as [pdb|]; [|reflexivity].
  cbn [fst snd]. cbv zeta.
  set (response := gradeLine (ToPuzzle pdb) (TypedSAN req)).
  destruct (progress !! ("default_user", PuzzleID req)) as [row|] eqn:Hrow.
  - eexists req, _. split; [reflexivity|].
    split; [apply saveProgress_update; exact Hrow|].
    repeat split. intros k Hk. apply saveProgress_other. exact Hk.
  - eexists req, _. split; [reflexivity|].
    split; [apply saveProgress_insert; exact Hrow|].
    repeat split. intros k Hk. apply saveProgress_other. exact Hk.
Qed.

Lemma handleGradeLine_solved_at
    (body : option GradeLineRequest) (now : Z)
    (puzzles : gmap string PuzzleDB)
    (progress : gmap (string * string) ProgressRow)
    (id : string) (pdb : PuzzleDB) :
  puzzles !! id = Some pdb ->
  length (Lines (pdbSolutionJSON pdb)) < 3 ->
  (progress !! ("default_user", id)) ≫= solved_at = None ->
  ((handleGradeLine body now puzzles progress).2 !! ("default_user", id))
    ≫= solved_at = None.
Proof.
  intros Hpdb Hshort Hnot. unfold handleGradeLine.
  destruct body as [req|]; [|exact Hnot].
  destruct (String.eqb (PuzzleID req) ""); [exact Hnot|].
  destruct (puzzles !! PuzzleID req) as [pdb'|] eqn:Hreq; [|exact Hnot].
  cbn [snd]. cbv zeta.
  destruct (decide (PuzzleID req = id)) as [Heq|Hne].
  - rewrite Heq in *. rewrite Hpdb in Hreq. injection Hreq as <-.
    pose proof (gradeLine_bounds (ToPuzzle pdb) (TypedSAN req))
      as (_ & Hdepth & _). cbn [ToPuzzle PuzzleSolution] in Hdepth.
    destruct (progress !! ("default_user", id)) as [row|] eqn:Hrow.
    + rewrite (saveProgress_update _ _ _ _ _ _ _ _ Hrow). cbn in *.
      destruct (Z.leb_spec 3
                  (Z.of_nat (DepthMatched
                               (gradeLine (ToPuzzle pdb) (TypedSAN req)))));
        [lia|exact Hnot].
    + rewrite (saveProgress_insert _ _ _ _ _ _ _ Hrow). reflexivity.
  - rewrite saveProgress_other by congruence. exact Hnot.
Qed.

(** A puzzle whose solution has fewer than three moves is never marked
    solved through [handleGradeLine]: whatever is typed and however often,
    its row of "default_user" keeps [solved_at] unset. *)
Theorem handleGradeLines_short_never_solved
    (requests : list (option GradeLineRequest * Z))
    (puzzles : gmap string PuzzleDB)
    (progress : gmap (string * string) ProgressRow)
    (id : string) (pdb : PuzzleDB) :
  puzzles !! id = Some pdb ->
  length (Lines (pdbSolutionJSON pdb)) < 3 ->
  (progress !! ("default_user", id)) ≫= solved_at = None ->
  (handleGradeLines requests puzzles progress !! ("default_user", id))
    ≫= solved_at = None.
Proof.
  intros Hpdb Hshort. revert progress.
  induction requests as [|[body now] rest IH]; intros progress Hnot;
    cbn [handleGradeLines]; [exact Hnot|].
  apply IH. eapply handleGradeLine_solved_at; eassumption.
Qed.

Lemma handleGradeLines_short_never_solved_witness :
  (handleGradeLines shortAttempts shortPuzzles ∅
     !! ("default_user", "wpm_easy_001")) ≫= solved_at = None.
Proof.
  apply (handleGradeLines_short_never_solved shortAttempts shortPuzzles ∅
           "wpm_easy_001"
           (mkPuzzleDB "wpm_easy_001" "easy" "" "w"
              (mkSolution [mkLine "Qh5" [] true; mkLine "g6" [] false] [])
              ["Qh5"])).
  - apply lookup_singleton_eq.
  - cbn. lia.
  - reflexivity.
Defined.

(** Whether some root of the forest carries the non-empty move [s]. *)
Lemma expectedFirstMoves_lookup (lines : list Line) (s : string) :
  forall want : gmap string bool,
    fold_left
      (fun want ln =>
         if String.eqb (SAN ln) "" then want else <[SAN ln := true]> want)
      lines want !! s
    = if existsb (fun ln => negb (String.eqb (SAN ln) "")
                            && String.eqb (SAN ln) s) lines
      then Some true else want !! s.
Proof.
  induction lines as [|l lines IH]; intros want; cbn [fold_left existsb];
    [reflexivity|].
  rewrite IH.
  destruct (existsb _ lines); [rewrite orb_true_r; reflexivity|].
  rewrite orb_false_r.
  destruct (String.eqb_spec (SAN l) ""); cbn [negb andb]; [reflexivity|].
  destruct (String.eqb_spec (SAN l) s) as [->|Hne].
  - apply lookup_insert_eq.
  - apply lookup_insert_ne. exact Hne.
Qed.

(** The legacy grader's [correct]: some root with a move carries the first
    played move. *)
Lemma gradeSolution_correct (puzzle : Puzzle) (playedSAN : list string) :
  (gradeSolution puzzle playedSAN).1.1 =
  match playedSAN with
  | [] => false
  | played0 :: _ =>
      existsb (fun ln => negb (String.eqb (SAN ln) "")
                         && String.eqb (SAN ln) played0)
        (Lines (PuzzleSolution puzzle))
  end.
Proof.
  unfold gradeSolution.
  destruct playedSAN as [|played0 rest]; [reflexivity|].
  cbn [length Nat.eqb].
  set (forest := Lines (PuzzleSolution puzzle)).
  set (playedSAN := played0 :: rest).
  assert (Hready : dfsReady playedSAN 0 (mkDfsVars false 0 [])).
  { unfold dfsReady; cbn. repeat split; try lia; try discriminate.
    congruence. }
  pose proof (dfs_done playedSAN forest) as Hdone.
  specialize (Hdone ltac:(apply Forall_forall; intros line _;
                          apply dfsVisit_done) 0 _ Hready).
  destruct (dfs playedSAN forest 0 (mkDfsVars false 0 [])) as [found v].
  destruct Hdone as (Hpre & _ & Hcor & Hcover & Hgot & _).
  cbn [fst snd matchedLine] in *. rewrite drop_0 in *.
  apply eq_true_iff_eq. rewrite Hcor, existsb_exists. split.
  - intros Hne. destruct Hgot as [Hlen|(n & _ & Hlen & Hs)].
    + destruct (matchedLine v); [congruence|discriminate].
    + destruct n as [|n]; [destruct (matchedLine v); [congruence|discriminate]|].
      subst playedSAN. cbn [take] in Hs.
      inversion Hs as [|? line ? Hin Hmove Hbelow Heq]; subst.
      exists line. split; [apply list_elem_of_In; exact Hin|].
      rewrite String.eqb_refl.
      destruct (String.eqb_spec (SAN line) ""); [congruence|reflexivity].
  - intros (line & Hin & Hmatch) Hnil.
    apply andb_true_iff in Hmatch as [Hmove Heq].
    apply String.eqb_eq in Heq. apply negb_true_iff in Hmove.
    apply String.eqb_neq in Hmove.
    assert (Spells forest (take 1 playedSAN)) as Hs.
    { subst playedSAN. cbn [take]. rewrite <- Heq.
      constructor; [apply list_elem_of_In; exact Hin|exact Hmove|constructor]. }
    specialize (Hcover 1 ltac:(subst playedSAN; cbn; lia) Hs).
    rewrite Hnil in Hcover. cbn in Hcover. lia.
Qed.

(** [GradeFirstMove] and the legacy grader agree on [correct]: on a stored
    solution that decodes, the dev endpoint answers the [correct] that
    [gradeSolution] computes for the same played moves, and the empty move
    is never among the expected first moves. *)
Theorem GradeFirstMove_agrees
    (unmarshalSolution : string -> option Solution)
    (req : GradeRequest) (puzzles : gmap string puzzleRow)
    (p : puzzleRow) (puzzle : Puzzle) :
  puzzles !! gradePuzzleID req = Some p ->
  unmarshalSolution (SolutionRaw p) = Some (PuzzleSolution puzzle) ->
  exists want,
    GradeFirstMove unmarshalSolution (Some req) puzzles
      = Responded ((gradeSolution puzzle (PlayedSAN req)).1.1, want) /\
    want !! "" = None.
Proof.
  intros Hp Hsol. unfold GradeFirstMove. rewrite Hp, Hsol. cbv zeta.
  eexists. split.
  - f_equal. f_equal. rewrite gradeSolution_correct.
    unfold expectedFirstMoves. rewrite expectedFirstMoves_lookup.
    rewrite lookup_empty.
    destruct (PlayedSAN req) as [|played0 rest].
    + induction (Lines (PuzzleSolution puzzle)) as [|l ls IH];
        [reflexivity|]. cbn [existsb].
      destruct (String.eqb (SAN l) ""); cbn [negb andb orb]; exact IH.
    + destruct (existsb _ _); reflexivity.
  - unfold expectedFirstMoves. rewrite expectedFirstMoves_lookup.
    rewrite lookup_empty.
    induction (Lines (PuzzleSolution puzzle)) as [|l ls IH];
      [reflexivity|]. cbn [existsb].
    destruct (String.eqb (SAN l) ""); cbn [negb andb orb]; exact IH.
Qed.

Lemma GradeFirstMove_agrees_witness :
  exists want,
    GradeFirstMove devUnmarshal (Some (mkGradeRequest "b" ["e4"; "c5"]))
      devPuzzles
      = Responded
          ((gradeSolution branchingPuzzle ["e4"; "c5"]).1.1, want) /\
    want !! "" = None.
Proof.
  apply (GradeFirstMove_agrees devUnmarshal
           (mkGradeRequest "b" ["e4"; "c5"]) devPuzzles
           (mkPuzzleRow "b" "" "w" "{...}") branchingPuzzle).
  - apply lookup_singleton_eq.
  - reflexivity.
Defined.

(** The legacy endpoint's [correct] looks at the first played move only,
    and compares it as it is: for a stored puzzle it is true exactly when
    that move is, byte for byte, the non-empty move of one of the top-level
    lines of the solution, in whatever position that line stands; what is
    played after it does not count. *)
Theorem handleGradePuzzle_first_move
    (req : GradeRequest) (puzzles : gmap string PuzzleDB)
    (puzzleDB : PuzzleDB) :
  gradePuzzleID req <> "" ->
  puzzles !! gradePuzzleID req = Some puzzleDB ->
  exists (score : nat) (matched : list string),
    handleGradePuzzle (Some req) puzzles
    = Responded
        (match PlayedSAN req with
         | [] => false
         | played0 :: _ =>
             existsb (fun ln => negb (String.eqb (SAN ln) "")
                                && String.eqb (SAN ln) played0)
               (Lines (pdbSolutionJSON puzzleDB))
         end, score, matched).
Proof.
  intros Hid Hrow. unfold handleGradePuzzle.
  apply String.eqb_neq in Hid. rewrite Hid, Hrow.
  pose proof (gradeSolution_correct (ToPuzzle puzzleDB) (PlayedSAN req))
    as Hc.
  destruct (gradeSolution (ToPuzzle puzzleDB) (PlayedSAN req))
    as [[c score] matched].
  cbn [fst] in Hc. exists score, matched. rewrite Hc. reflexivity.
Qed.

Lemma handleGradePuzzle_first_move_witness :
  exists (score : nat) (matched : list string),
    handleGradePuzzle (Some (mkGradeRequest "wpm_easy_001" ["g6"]))
      shortPuzzles
    = Responded (true, score, matched).
Proof.
  apply (handleGradePuzzle_first_move
           (mkGradeRequest "wpm_easy_001" ["g6"]) shortPuzzles
           (mkPuzzleDB "wpm_easy_001" "easy" "" "w"
              (mkSolution [mkLine "Qh5" [] true; mkLine "g6" [] false] [])
              ["Qh5"])).
  - discriminate.
  - apply lookup_singleton_eq.
Defined.

(** ** The board demo *)

Lemma wrap_small (z : Z) :
  (- 2 ^ 63 <= z < 2 ^ 63)%Z -> GoInt.wrap z = z.
Proof.
  intros H. unfold GoInt.wrap.
  change (2 ^ 63)%Z with 9223372036854775808%Z in *.
  change (2 ^ 64)%Z with 18446744073709551616%Z.
  rewrite Z.mod_small by lia. lia.
Qed.

Ltac goint :=
  unfold GoInt.abs, GoInt.min, GoInt.max, GoInt.neg, GoInt.sub, GoInt.add
    in *;
  repeat match goal with
    | |- context [GoInt.wrap ?z] => rewrite (wrap_small z) by lia
    | H : context [GoInt.wrap ?z] |- _ => rewrite (wrap_small z) in H by lia
    end.

Lemma index8_Z8 (i : fin 8) : index8 (Z8 i) = Some i.
Proof. revert i. apply (bool_decide_unpack _). by vm_compute. Qed.

Lemma Z8_range (i : fin 8) : (0 <= Z8 i <= 7)%Z.
Proof. unfold Z8. pose proof (fin_to_nat_lt i). lia. Qed.

Lemma index8_Some (z : Z) (i : fin 8) : index8 z = Some i -> z = Z8 i.
Proof.
  destruct z as [|p|p]; try discriminate;
    [intros [= <-]; reflexivity|].
  do 4 (try destruct p as [p|p|]); try discriminate;
    intros [= <-]; reflexivity.
Qed.

Lemma index8_in (z : Z) :
  (0 <= z <= 7)%Z -> exists i : fin 8, index8 z = Some i /\ z = Z8 i.
Proof.
  intros H.
  assert (z = 0 \/ z = 1 \/ z = 2 \/ z = 3 \/ z = 4 \/ z = 5 \/ z = 6
          \/ z = 7)%Z as Hz by lia.
  destruct Hz as [->|[->|[->|[->|[->|[->|[->| ->]]]]]]];
    eexists; split; reflexivity.
Qed.

Lemma index8_out (z : Z) : ~ (0 <= z <= 7)%Z -> index8 z = None.
Proof.
  intros H. destruct (index8 z) as [i|] eqn:E; [|reflexivity].
  apply index8_Some in E. pose proof (Z8_range i). lia.
Qed.

Lemma square_in (board : vec (vec (option Piece) 8) 8) (row col : Z) :
  (0 <= row <= 7)%Z -> (0 <= col <= 7)%Z ->
  exists p, square board row col = Done p.
Proof.
  intros Hr Hc. unfold square.
  destruct (index8_in row Hr) as (i & -> & _).
  destruct (index8_in col Hc) as (j & -> & _). eauto.
Qed.

Lemma square_Done (board : vec (vec (option Piece) 8) 8) (row col : Z)
    (p : option Piece) :
  square board row col = Done p -> (0 <= row <= 7)%Z /\ (0 <= col <= 7)%Z.
Proof.
  unfold square. intros H.
  destruct (index8 row) as [i|] eqn:Er; [|discriminate].
  destruct (index8 col) as [j|] eqn:Ec; [|discriminate].
  apply index8_Some in Er, Ec. subst.
  split; apply Z8_range.
Qed.

(** The rook's loop: it returns when the squares it reads are on the
    board, and says whether they are all empty. *)
Lemma pathClear_spec (n : nat) (read : Z -> Run (option Piece)) (k : Z) :
  (0 <= k)%Z -> (k + Z.of_nat n <= 8)%Z ->
  (forall j : Z, (k <= j < k + Z.of_nat n)%Z -> exists p, read j = Done p) ->
  exists b : bool,
    pathClear n read k = Done b
    /\ (b = true <->
        forall j : Z, (k <= j < k + Z.of_nat n)%Z -> read j = Done None).
Proof.
  revert k. induction n as [|n IH]; intros k Hk Hn Hread.
  - exists true. split; [reflexivity|]. split; [|reflexivity].
    intros _ j Hj. lia.
  - cbn [pathClear].
    destruct (Hread k) as [p Hp]; [lia|]. rewrite Hp. cbn [bindRun].
    destruct p as [p|].
    + exists false. split; [reflexivity|]. split; [discriminate|].
      intros H. specialize (H k). rewrite Hp in H.
      discriminate H. lia.
    + goint.
      destruct (IH (k + 1)%Z) as (b & Hb & Hiff); [lia|lia| |].
      { intros j Hj. apply Hread. lia. }
      exists b. split; [exact Hb|]. rewrite Hiff. split.
      * intros H j Hj. destruct (Z.eq_dec j k) as [->|Hne]; [exact Hp|].
        apply H. lia.
      * intros H j Hj. apply H. lia.
Qed.

(** The bishop's loop, [m] steps away from its target on a diagonal. *)
Lemma bishopPath_spec (m rounds : nat)
    (board : vec (vec (option Piece) 8) 8)
    (row col rowStep colStep toRow toCol : Z) :
  (rowStep = 1 \/ rowStep = -1)%Z -> (colStep = 1 \/ colStep = -1)%Z ->
  toRow = (row + Z.of_nat m * rowStep)%Z ->
  toCol = (col + Z.of_nat m * colStep)%Z ->
  (m <= rounds)%nat ->
  (0 <= row <= 7)%Z -> (0 <= col <= 7)%Z ->
  (0 <= toRow <= 7)%Z -> (0 <= toCol <= 7)%Z ->
  exists b : bool,
    bishopPath rounds board row col rowStep colStep toRow toCol = Done b
    /\ (b = true <->
        forall j : Z, (0 <= j < Z.of_nat m)%Z ->
          square board (row + j * rowStep) (col + j * colStep) = Done None).
Proof.
  revert rounds row col.
  induction m as [|m IH]; intros rounds row col Hrs Hcs Hr Hc Hm Hrow Hcol
    Htr Htc.
  - exists true. split.
    + destruct rounds; cbn [bishopPath];
        replace (row =? toRow)%Z with true by (symmetry; lia);
        reflexivity.
    + split; [|reflexivity]. intros _ j Hj. lia.
  - destruct rounds as [|rounds]; [lia|]. cbn [bishopPath].
    replace (row =? toRow)%Z with false by (symmetry; lia).
    replace (col =? toCol)%Z with false by (symmetry; lia).
    cbn [negb andb].
    destruct (square_in board row col Hrow Hcol) as [p Hp].
    rewrite Hp. cbn [bindRun].
    destruct p as [p|].
    + exists false. split; [reflexivity|]. split; [discriminate|].
      intros H. specialize (H 0%Z).
      rewrite !Z.mul_0_l, !Z.add_0_r, Hp in H. discriminate H. lia.
    + goint.
      destruct (IH rounds (row + rowStep)%Z (col + colStep)%Z)
        as (b & Hb & Hiff); try lia.
      exists b. split; [exact Hb|]. rewrite Hiff. split.
      * intros H j Hj. destruct (Z.eq_dec j 0%Z) as [->|Hne].
        { rewrite !Z.mul_0_l, !Z.add_0_r. exact Hp. }
        specialize (H (j - 1)%Z).
        replace (row + rowStep + (j - 1) * rowStep)%Z
          with (row + j * rowStep)%Z in H by lia.
        replace (col + colStep + (j - 1) * colStep)%Z
          with (col + j * colStep)%Z in H by lia.
        apply H. lia.
      * intros H j Hj. specialize (H (j + 1)%Z).
        replace (row + (j + 1) * rowStep)%Z
          with (row + rowStep + j * rowStep)%Z in H by lia.
        replace (col + (j + 1) * colStep)%Z
          with (col + colStep + j * colStep)%Z in H by lia.
        apply H. lia.
Qed.

Lemma pathClear_between (read : Z -> Run (option Piece)) (lo hi : Z) :
  (0 <= lo <= 7)%Z -> (hi <= 8)%Z ->
  (forall j : Z, (lo < j < hi)%Z -> exists p, read j = Done p) ->
  exists b : bool,
    pathClear (Z.to_nat (hi - GoInt.add lo 1)) read (GoInt.add lo 1)
    = Done b
    /\ (b = true <-> forall j : Z, (lo < j < hi)%Z -> read j = Done None).
Proof.
  intros Hlo Hhi Hread. goint.
  destruct (pathClear_spec (Z.to_nat (hi - (lo + 1))) read (lo + 1)%Z)
    as (b & Hb & Hiff); [lia|lia| |].
  { intros j Hj. apply Hread. lia. }
  exists b. split; [exact Hb|]. rewrite Hiff.
  split; intros H j Hj; apply H; lia.
Qed.

Ltac sgn_cases x :=
  destruct (Z.sgn_spec x) as [[? ?E]|[[? ?E]|[? ?E]]]; rewrite ?E in *.

(** [isValidRookMove] on the board: it returns, and accepts the moves
    along a row or a column over empty squares. *)
Lemma isValidRookMove_spec (game : ChessGame) (move : Move) :
  onBoard move ->
  exists b : bool,
    isValidRookMove game move = Done b
    /\ (b = true <-> alongLine move /\ pathEmpty (Board game) move).
Proof.
  destruct move as [fr fc tr tc].
  unfold onBoard, alongLine, pathEmpty, isValidRookMove.
  cbn [FromRow FromCol ToRow ToCol]. intros (Hfr & Hfc & Htr & Htc).
  replace (GoInt.sub tr fr) with (tr - fr)%Z by (goint; reflexivity).
  replace (GoInt.sub tc fc) with (tc - fc)%Z by (goint; reflexivity).
  destruct (Z.eqb_spec (tr - fr) 0) as [Hr|Hr];
    [|destruct (Z.eqb_spec (tc - fc) 0) as [Hc|Hc]]; cbn [negb andb].
  - destruct (pathClear_between
                (fun col => square (Board game) fr col)
                (GoInt.min fc tc) (GoInt.max fc tc)) as (b & Hb & Hiff).
    { goint. destruct (fc <? tc)%Z; lia. }
    { goint. destruct (fc >? tc)%Z; lia. }
    { intros j Hj. apply square_in; [lia|].
      goint. destruct (Z.ltb_spec fc tc), (Z.gtb_spec fc tc); lia. }
    exists b. split; [exact Hb|]. rewrite Hiff.
    replace (tr - fr)%Z with 0%Z by lia. cbn [Z.sgn Z.abs].
    goint. split.
    + intros H. split; [left; lia|]. intros k Hk.
      rewrite Z.mul_0_r, Z.add_0_r. apply H.
      sgn_cases (tc - fc)%Z;
        destruct (Z.ltb_spec fc tc), (Z.gtb_spec fc tc); lia.
    + intros [_ H] j Hj.
      specialize (H (Z.abs (j - fc))).
      rewrite Z.mul_0_r, Z.add_0_r in H.
      replace (fc + Z.abs (j - fc) * Z.sgn (tc - fc))%Z with j in H.
      * apply H.
        destruct (Z.ltb_spec fc tc), (Z.gtb_spec fc tc); lia.
      * sgn_cases (tc - fc)%Z;
          destruct (Z.ltb_spec fc tc), (Z.gtb_spec fc tc); lia.
  - destruct (pathClear_between
                (fun row => square (Board game) row fc)
                (GoInt.min fr tr) (GoInt.max fr tr)) as (b & Hb & Hiff).
    { goint. destruct (fr <? tr)%Z; lia. }
    { goint. destruct (fr >? tr)%Z; lia. }
    { intros j Hj. apply square_in; [|lia].
      goint. destruct (Z.ltb_spec fr tr), (Z.gtb_spec fr tr); lia. }
    exists b. split; [exact Hb|]. rewrite Hiff.
    replace (tc - fc)%Z with 0%Z by lia. cbn [Z.sgn Z.abs].
    goint. split.
    + intros H. split; [right; lia|]. intros k Hk.
      rewrite Z.mul_0_r, Z.add_0_r. apply H.
      sgn_cases (tr - fr)%Z;
        destruct (Z.ltb_spec fr tr), (Z.gtb_spec fr tr); lia.
    + intros [_ H] j Hj.
      specialize (H (Z.abs (j - fr))).
      rewrite Z.mul_0_r, Z.add_0_r in H.
      replace (fr + Z.abs (j - fr) * Z.sgn (tr - fr))%Z with j in H.
      * apply H.
        destruct (Z.ltb_spec fr tr), (Z.gtb_spec fr tr); lia.
      * sgn_cases (tr - fr)%Z;
          destruct (Z.ltb_spec fr tr), (Z.gtb_spec fr tr); lia.
  - exists false. split; [reflexivity|]. split; [discriminate|].
    intros [[H|H] _]; lia.
Qed.

Lemma abs_small (x : Z) :
  (- 2 ^ 63 < x < 2 ^ 63)%Z -> GoInt.abs x = Z.abs x.
Proof.
  intros H. unfold GoInt.abs, GoInt.neg.
  destruct (Z.ltb_spec x 0); [rewrite wrap_small|]; lia.
Qed.

(** [isValidBishopMove] on the board, between two different squares: it
    returns, and accepts the moves along a diagonal over empty squares. *)
Lemma isValidBishopMove_spec (game : ChessGame) (move : Move) :
  onBoard move ->
  FromRow move <> ToRow move \/ FromCol move <> ToCol move ->
  exists b : bool,
    isValidBishopMove game move = Done b
    /\ (b = true <-> alongDiagonal move /\ pathEmpty (Board game) move).
Proof.
  destruct move as [fr fc tr tc].
  unfold onBoard, alongDiagonal, pathEmpty, isValidBishopMove.
  cbn [FromRow FromCol ToRow ToCol]. intros (Hfr & Hfc & Htr & Htc) Hne.
  replace (GoInt.sub tr fr) with (tr - fr)%Z by (goint; reflexivity).
  replace (GoInt.sub tc fc) with (tc - fc)%Z by (goint; reflexivity).
  rewrite !abs_small by lia.
  destruct (Z.eqb_spec (Z.abs (tr - fr)) (Z.abs (tc - fc))) as [Hd|Hd];
    cbn [negb].
  - set (rowStep := if (tr - fr <? 0)%Z then (-1)%Z else 1%Z).
    set (colStep := if (tc - fc <? 0)%Z then (-1)%Z else 1%Z).
    assert (rowStep = Z.sgn (tr - fr)) as Hrs.
    { subst rowStep. destruct (Z.ltb_spec (tr - fr) 0); lia. }
    assert (colStep = Z.sgn (tc - fc)) as Hcs.
    { subst colStep. destruct (Z.ltb_spec (tc - fc) 0); lia. }
    destruct (bishopPath_spec (Z.to_nat (Z.abs (tr - fr) - 1)) 8
                (Board game) (GoInt.add fr rowStep) (GoInt.add fc colStep)
                rowStep colStep tr tc) as (b & Hb & Hiff);
      try (subst rowStep colStep; goint;
           destruct (Z.ltb_spec (tr - fr) 0), (Z.ltb_spec (tc - fc) 0);
           lia).
    exists b. split; [exact Hb|]. rewrite Hiff. rewrite <- Hrs, <- Hcs.
    replace (GoInt.add fr rowStep) with (fr + rowStep)%Z
      by (subst rowStep; goint; destruct (tr - fr <? 0)%Z; goint; lia).
    replace (GoInt.add fc colStep) with (fc + colStep)%Z
      by (subst colStep; goint; destruct (tc - fc <? 0)%Z; goint; lia).
    split.
    + intros H. split; [exact Hd|]. intros k Hk.
      specialize (H (k - 1)%Z).
      replace (fr + rowStep + (k - 1) * rowStep)%Z
        with (fr + k * rowStep)%Z in H by lia.
      replace (fc + colStep + (k - 1) * colStep)%Z
        with (fc + k * colStep)%Z in H by lia.
      apply H. lia.
    + intros [_ H] j Hj. specialize (H (j + 1)%Z).
      replace (fr + (j + 1) * rowStep)%Z
        with (fr + rowStep + j * rowStep)%Z in H by lia.
      replace (fc + (j + 1) * colStep)%Z
        with (fc + colStep + j * colStep)%Z in H by lia.
      apply H. lia.
  - exists false. split; [reflexivity|]. split; [discriminate|].
    intros [H _]. lia.
Qed.

(** [isValidQueenMove] on the board, between two different squares. *)
Lemma isValidQueenMove_spec (game : ChessGame) (move : Move) :
  onBoard move ->
  FromRow move <> ToRow move \/ FromCol move <> ToCol move ->
  exists b : bool,
    isValidQueenMove game move = Done b
    /\ (b = true <->
        (alongLine move \/ alongDiagonal move)
        /\ pathEmpty (Board game) move).
Proof.
  intros Hon Hne. unfold isValidQueenMove.
  destruct (isValidRookMove_spec game move Hon) as (r & -> & Hr).
  destruct (isValidBishopMove_spec game move Hon Hne) as (b & Hb & Hbi).
  cbn [bindRun]. destruct r.
  - exists true. split; [reflexivity|]. split; [|reflexivity].
    intros _. destruct Hr as [Hr _]. destruct (Hr eq_refl). tauto.
  - exists b. split; [exact Hb|]. rewrite Hbi. split; [tauto|].
    intros [[H|H] Hp]; [|tauto].
    destruct Hr as [_ Hr]. discriminate Hr. tauto.
Qed.

Lemma isValidKnightMove_spec (move : Move) :
  onBoard move ->
  isValidKnightMove move = true <->
  Z.abs (ToRow move - FromRow move) = 2%Z
  /\ Z.abs (ToCol move - FromCol move) = 1%Z
  \/ Z.abs (ToRow move - FromRow move) = 1%Z
     /\ Z.abs (ToCol move - FromCol move) = 2%Z.
Proof.
  destruct move as [fr fc tr tc]. unfold onBoard, isValidKnightMove.
  cbn [FromRow FromCol ToRow ToCol]. intros (Hfr & Hfc & Htr & Htc).
  replace (GoInt.sub tr fr) with (tr - fr)%Z by (goint; reflexivity).
  replace (GoInt.sub tc fc) with (tc - fc)%Z by (goint; reflexivity).
  rewrite !abs_small by lia.
  rewrite orb_true_iff, !andb_true_iff, !Z.eqb_eq. reflexivity.
Qed.

Lemma isValidKingMove_spec (move : Move) :
  onBoard move ->
  isValidKingMove move = true <->
  (Z.abs (ToRow move - FromRow move) <= 1)%Z
  /\ (Z.abs (ToCol move - FromCol move) <= 1)%Z.
Proof.
  destruct move as [fr fc tr tc]. unfold onBoard, isValidKingMove.
  cbn [FromRow FromCol ToRow ToCol]. intros (Hfr & Hfc & Htr & Htc).
  replace (GoInt.sub tr fr) with (tr - fr)%Z by (goint; reflexivity).
  replace (GoInt.sub tc fc) with (tc - fc)%Z by (goint; reflexivity).
  rewrite !abs_small by lia.
  rewrite andb_true_iff, !Z.leb_le. reflexivity.
Qed.

(** [isValidPawnMove] on the board, from a square that holds [p]. *)
Lemma isValidPawnMove_spec (game : ChessGame) (move : Move) (p : Piece) :
  onBoard move ->
  square (Board game) (FromRow move) (FromCol move) = Done (Some p) ->
  exists b : bool,
    isValidPawnMove game move = Done b
    /\ (b = true <-> pawnRule (Board game) move p).
Proof.
  destruct move as [fr fc tr tc].
  unfold onBoard, pawnRule, isValidPawnMove.
  cbn [FromRow FromCol ToRow ToCol]. intros (Hfr & Hfc & Htr & Htc) Hp.
  rewrite Hp. cbn [bindRun].
  replace (GoInt.sub tr fr) with (tr - fr)%Z by (goint; reflexivity).
  replace (GoInt.sub tc fc) with (tc - fc)%Z by (goint; reflexivity).
  rewrite !abs_small by lia. rewrite Z.abs_idemp.
  destruct (square_in (Board game) tr tc Htr Htc) as [q Hq].
  rewrite Hq. cbn [bindRun].
  destruct (String.eqb_spec (Color p) "white") as [Hw|Hw].
  - rewrite Hw. cbn [String.eqb Ascii.eqb Bool.eqb andb orb].
    destruct (Z.eqb_spec (Z.abs (tc - fc)) 0) as [Hc|Hc].
    + destruct (Z.eqb_spec (tr - fr) (-1)) as [Hr|Hr].
      * exists (bool_decide (q = None)). split; [reflexivity|].
        rewrite bool_decide_eq_true. split.
        { intros ->. left. repeat split; lia. }
        { intros [(_ & _ & [= <-])|[H|H]]; [reflexivity|lia|lia]. }
      * destruct (Z.eqb_spec fr 6) as [H6|H6];
          [destruct (Z.eqb_spec (tr - fr) (-2)) as [H2|H2]|]; cbn [andb].
        { destruct q as [q|].
          - rewrite bool_decide_eq_false_2 by discriminate.
            exists false. split; [reflexivity|].
            split; [discriminate|].
            intros [H|[(_ & _ & [=] & _)|H]]; lia.
          - rewrite bool_decide_eq_true_2 by reflexivity.
            destruct (square_in (Board game) (GoInt.add fr (-1)) fc)
              as [m Hm]; [goint; lia|lia|].
            rewrite Hm. cbn [bindRun].
            exists (bool_decide (m = None)). split; [reflexivity|].
            rewrite bool_decide_eq_true.
            replace (GoInt.add fr (-1)) with (fr + -1)%Z in Hm
              by (goint; reflexivity).
            split.
            + intros ->. right. left.
              repeat split; try lia; try exact Hm.
              left. repeat split; lia.
            + intros [H|[(_ & _ & _ & H)|H]]; [lia| |lia].
              rewrite Hm in H. injection H as ->. reflexivity. }
        { exists false. split; [reflexivity|]. split; [discriminate|].
          intros [H|[(_ & [H|([=] & _)] & _)|H]]; lia. }
        { exists false. split; [reflexivity|]. split; [discriminate|].
          intros [H|[(_ & [H|([=] & _)] & _)|H]]; lia. }
    + destruct (Z.eqb_spec (Z.abs (tc - fc)) 1) as [H1|H1];
        [destruct (Z.eqb_spec (tr - fr) (-1)) as [Hr|Hr]|]; cbn [andb].
      * exists (negb (bool_decide (q = None))). split; [reflexivity|].
        rewrite negb_true_iff, bool_decide_eq_false. split.
        { intros Hn. right. right. destruct q as [q|]; [|congruence].
          repeat split; eauto. }
        { intros [H|[H|(_ & _ & q' & [= ->])]]; [lia|lia|discriminate]. }
      * exists false. split; [reflexivity|]. split; [discriminate|].
        intros [H|[H|H]]; lia.
      * exists false. split; [reflexivity|]. split; [discriminate|].
        intros [H|[H|H]]; lia.
  - replace (String.eqb (Color p) "white") with false
      by (symmetry; apply String.eqb_neq; exact Hw).
    cbn [andb orb].
    destruct (Z.eqb_spec (Z.abs (tc - fc)) 0) as [Hc|Hc].
    + destruct (Z.eqb_spec (tr - fr) 1) as [Hr|Hr].
      * exists (bool_decide (q = None)). split; [reflexivity|].
        rewrite bool_decide_eq_true. split.
        { intros ->. left. repeat split; lia. }
        { intros [(_ & _ & [= <-])|[H|H]]; [reflexivity|lia|lia]. }
      * destruct (String.eqb_spec (Color p) "black") as [Hb|Hb];
          [destruct (Z.eqb_spec fr 1) as [H6|H6];
           [destruct (Z.eqb_spec (tr - fr) 2) as [H2|H2]|]|]; cbn [andb].
        { destruct q as [q|].
          - rewrite bool_decide_eq_false_2 by discriminate.
            exists false. split; [reflexivity|].
            split; [discriminate|].
            intros [H|[(_ & _ & [=] & _)|H]]; lia.
          - rewrite bool_decide_eq_true_2 by reflexivity.
            destruct (square_in (Board game) (GoInt.add fr 1) fc)
              as [m Hm]; [goint; lia|lia|].
            rewrite Hm. cbn [bindRun].
            exists (bool_decide (m = None)). split; [reflexivity|].
            rewrite bool_decide_eq_true.
            replace (GoInt.add fr 1) with (fr + 1)%Z in Hm
              by (goint; reflexivity).
            split.
            + intros ->. right. left.
              repeat split; try lia; try exact Hm.
              right. repeat split; [exact Hb|lia|lia].
            + intros [H|[(_ & _ & _ & H)|H]]; [lia| |lia].
              rewrite Hm in H. injection H as ->. reflexivity. }
        { exists false. split; [reflexivity|]. split; [discriminate|].
          intros [H|[(_ & [(H & _)|H] & _)|H]]; [lia|congruence|lia|lia]. }
        { exists false. split; [reflexivity|]. split; [discriminate|].
          intros [H|[(_ & [(H & _)|H] & _)|H]]; [lia|congruence|lia|lia]. }
        { exists false. split; [reflexivity|]. split; [discriminate|].
          intros [H|[(_ & [(H & _)|(H & _)] & _)|H]];
            [lia|congruence|congruence|lia]. }
    + destruct (Z.eqb_spec (Z.abs (tc - fc)) 1) as [H1|H1];
        [destruct (Z.eqb_spec (tr - fr) 1) as [Hr|Hr]|]; cbn [andb].
      * exists (negb (bool_decide (q = None))). split; [reflexivity|].
        rewrite negb_true_iff, bool_decide_eq_false. split.
        { intros Hn. right. right. destruct q as [q|]; [|congruence].
          repeat split; eauto. }
        { intros [H|[H|(_ & _ & q' & [= ->])]]; [lia|lia|discriminate]. }
      * exists false. split; [reflexivity|]. split; [discriminate|].
        intros [H|[H|H]]; lia.
      * exists false. split; [reflexivity|]. split; [discriminate|].
        intros [H|[H|H]]; lia.
Qed.

(** [isValidMove] returns, and accepts exactly the moves on the board
    that take a piece of the player to move to a square not held by a
    piece of the same colour, by the rule of the piece. *)
Lemma isValidMove_cases (game : ChessGame) (move : Move) :
  exists b : bool,
    isValidMove game move = Done b
    /\ (b = true <->
        onBoard move
        /\ exists p : Piece,
             square (Board game) (FromRow move) (FromCol move)
             = Done (Some p)
             /\ Color p = CurrentPlayer game
             /\ (forall q : Piece,
                   square (Board game) (ToRow move) (ToCol move)
                   = Done (Some q) -> Color q <> Color p)
             /\ pieceRule (Board game) move p).
Proof.
  unfold isValidMove.
  destruct ((FromRow move <? 0)%Z || (FromRow move >? 7)%Z
            || (FromCol move <? 0)%Z || (FromCol move >? 7)%Z
            || (ToRow move <? 0)%Z || (ToRow move >? 7)%Z
            || (ToCol move <? 0)%Z || (ToCol move >? 7)%Z) eqn:Hb.
  { exists false. split; [reflexivity|]. split; [discriminate|].
    intros [Hon _]. unfold onBoard in Hon.
    rewrite !orb_true_iff, !Z.ltb_lt, !Z.gtb_gt in Hb. lia. }
  assert (onBoard move) as Hon.
  { rewrite !orb_false_iff, !Z.ltb_ge, !Z.gtb_ltb, !Z.ltb_ge in Hb.
    unfold onBoard. lia. }
  clear Hb. pose proof Hon as (Hfr & Hfc & Htr & Htc).
  destruct (square_in (Board game) _ _ Hfr Hfc) as [from Hfrom].
  destruct (square_in (Board game) _ _ Htr Htc) as [to Hto].
  rewrite Hfrom. cbn [bindRun]. destruct from as [p|].
  2:{ exists false. split; [reflexivity|]. split; [discriminate|].
      intros (_ & p & [=] & _). }
  destruct (String.eqb_spec (Color p) (CurrentPlayer game)) as [Hturn|Hturn];
    cbn [negb].
  2:{ exists false. split; [reflexivity|]. split; [discriminate|].
      intros (_ & p' & [= <-] & H & _). contradiction. }
  rewrite Hto. cbn [bindRun].
  destruct (match to with
            | Some toPiece => String.eqb (Color toPiece) (Color p)
            | None => false
            end) eqn:Hown.
  { exists false. split; [reflexivity|]. split; [discriminate|].
    intros (_ & p' & [= <-] & _ & H & _).
    destruct to as [q|]; [|discriminate].
    apply String.eqb_eq in Hown. destruct (H q eq_refl Hown). }
  assert (forall q : Piece, to = Some q -> Color q <> Color p) as Hother.
  { intros q -> H. apply String.eqb_eq in H. congruence. }
  assert (FromRow move <> ToRow move \/ FromCol move <> ToCol move)
    as Hne.
  { destruct (Z.eq_dec (FromRow move) (ToRow move)) as [Er|]; [|tauto].
    destruct (Z.eq_dec (FromCol move) (ToCol move)) as [Ec|]; [|tauto].
    rewrite <- Er, <- Ec, Hfrom in Hto. injection Hto as <-.
    destruct (Hother p eq_refl eq_refl). }
  assert (forall b : bool, forall R : Piece -> Prop,
            (b = true <-> R p) ->
            b = true <->
            onBoard move
            /\ exists p0 : Piece,
                 Done (Some p) = Done (Some p0)
                 /\ Color p0 = CurrentPlayer game
                 /\ (forall q : Piece,
                       Done to = Done (Some q) -> Color q <> Color p0)
                 /\ R p0) as Hwrap.
  { intros b R HR. rewrite HR. split.
    - intros H. split; [exact Hon|]. exists p.
      repeat split; [exact Hturn| |exact H].
      intros q [= ->]. apply Hother. reflexivity.
    - intros (_ & p0 & [= <-] & _ & _ & H). exact H. }
  unfold pieceRule.
  destruct (isValidPawnMove_spec game move p Hon Hfrom) as (bp & Hbp & Hp).
  destruct (isValidRookMove_spec game move Hon) as (br & Hbr & Hr).
  destruct (isValidBishopMove_spec game move Hon Hne) as (bb & Hbb & Hbi).
  destruct (isValidQueenMove_spec game move Hon Hne) as (bq & Hbq & Hq).
  pose proof (isValidKnightMove_spec move Hon) as Hn.
  pose proof (isValidKingMove_spec move Hon) as Hk.
  exists
    (if String.eqb (Type_ p) Pawn then bp
     else if String.eqb (Type_ p) Rook then br
     else if String.eqb (Type_ p) Knight then isValidKnightMove move
     else if String.eqb (Type_ p) Bishop then bb
     else if String.eqb (Type_ p) Queen then bq
     else if String.eqb (Type_ p) King then isValidKingMove move
     else false).
  split.
  - repeat match goal with
      | |- context [String.eqb (Type_ p) ?t] =>
          destruct (String.eqb (Type_ p) t) eqn:?
      end; first [eassumption | reflexivity].
  - apply (Hwrap _ (fun p0 => pieceRule (Board game) move p0)).
    unfold pieceRule.
    repeat match goal with
      | |- context [String.eqb (Type_ p) ?t] =>
          destruct (String.eqb (Type_ p) t) eqn:?
      end; try assumption.
    split; [discriminate|tauto].
Qed.

(** The bishop's loop never makes a ninth round: with steps of one square,
    more rounds than eight give the same answer. *)
Lemma bishopPath_rounds_room (n k : nat)
    (board : vec (vec (option Piece) 8) 8)
    (row col rowStep colStep toRow toCol : Z) :
  (rowStep = 1 \/ rowStep = -1)%Z ->
  ((0 <= row <= 7)%Z ->
   (if (rowStep =? 1)%Z then 8 - row else row + 1)%Z <= Z.of_nat n)%Z ->
  bishopPath (n + k) board row col rowStep colStep toRow toCol
  = bishopPath n board row col rowStep colStep toRow toCol.
Proof.
  revert row col. induction n as [|n IH]; intros row col Hs Hroom.
  - destruct k as [|k]; [reflexivity|]. cbn [Nat.add bishopPath].
    destruct (negb (row =? toRow)%Z && negb (col =? toCol)%Z);
      [|reflexivity].
    destruct (square board row col) as [p|] eqn:Hp; [|reflexivity].
    apply square_Done in Hp as [Hrow _].
    specialize (Hroom Hrow). destruct Hs as [-> | ->]; cbn in Hroom; lia.
  - cbn [Nat.add bishopPath].
    destruct (negb (row =? toRow)%Z && negb (col =? toCol)%Z);
      [|reflexivity].
    destruct (square board row col) as [p|] eqn:Hp; [|reflexivity].
    cbn [bindRun]. destruct p as [p|]; [reflexivity|].
    apply square_Done in Hp as [Hrow _]. specialize (Hroom Hrow).
    apply IH; [exact Hs|]. intros Hrow'.
    destruct Hs as [-> | ->]; cbn in Hroom |- *; goint; lia.
Qed.

Lemma bishopPath_rounds (k : nat) (board : vec (vec (option Piece) 8) 8)
    (row col rowStep colStep toRow toCol : Z) :
  (rowStep = 1 \/ rowStep = -1)%Z ->
  bishopPath (8 + k) board row col rowStep colStep toRow toCol
  = bishopPath 8 board row col rowStep colStep toRow toCol.
Proof.
  intros Hs. apply bishopPath_rounds_room; [exact Hs|].
  intros Hrow. destruct Hs as [-> | ->]; cbn; lia.
Qed.

(** [isValidMove] never panics: for every game and every move, with
    coordinates of any size, it returns an answer; no read of the board is
    out of range and no missing piece is dereferenced. *)
Theorem isValidMove_never_panics (game : ChessGame) (move : Move) :
  exists b : bool, isValidMove game move = Done b.
Proof.
  destruct (isValidMove_cases game move) as (b & Hb & _). eauto.
Qed.

(** [isValidMove] accepts a move exactly when it stays on the board,
    takes a piece of the player to move to a square that holds no piece of
    that colour, and follows the rule of the piece: [pawnRule] for a pawn,
    a clear row or column for a rook, a clear diagonal for a bishop, either
    for a queen, the L shape for a knight, one square for a king; a piece
    of any other type never moves. *)
Theorem isValidMove_rules (game : ChessGame) (move : Move) :
  isValidMove game move = Done true <->
  onBoard move
  /\ exists p : Piece,
       square (Board game) (FromRow move) (FromCol move) = Done (Some p)
       /\ Color p = CurrentPlayer game
       /\ (forall q : Piece,
             square (Board game) (ToRow move) (ToCol move) = Done (Some q) ->
             Color q <> Color p)
       /\ pieceRule (Board game) move p.
Proof.
  destruct (isValidMove_cases game move) as (b & Hb & Hiff).
  rewrite Hb, <- Hiff. split; [intros [= ->]; reflexivity|congruence].
Qed.

Lemma pathEmpty_one_step (board : vec (vec (option Piece) 8) 8)
    (move : Move) :
  (Z.abs (ToRow move - FromRow move) <= 1)%Z ->
  (Z.abs (ToCol move - FromCol move) <= 1)%Z ->
  pathEmpty board move.
Proof. intros Hr Hc k Hk. lia. Qed.

(** Only knights jump: a move that [isValidMove] accepts for a piece
    that is not a knight runs along a row, a column or a diagonal, and every
    square strictly between its two ends is empty. *)
Theorem only_knights_jump (game : ChessGame) (move : Move) (p : Piece) :
  isValidMove game move = Done true ->
  square (Board game) (FromRow move) (FromCol move) = Done (Some p) ->
  Type_ p <> Knight ->
  (alongLine move \/ alongDiagonal move) /\ pathEmpty (Board game) move.
Proof.
  intros Hvalid Hp Hk.
  destruct (isValidMove_cases game move) as (b & Hb & Hiff).
  rewrite Hb in Hvalid. injection Hvalid as ->.
  destruct Hiff as [Hiff _].
  destruct (Hiff eq_refl) as (Hon & p' & Hp' & _ & _ & Hrule).
  rewrite Hp in Hp'. injection Hp' as <-.
  unfold pieceRule in Hrule.
  destruct (String.eqb_spec (Type_ p) Pawn) as [_|_].
  { unfold pawnRule in Hrule. unfold alongLine, alongDiagonal.
    destruct (String.eqb_spec (Color p) "white") as [Hw|Hw];
      destruct Hrule as [(Hc & Hr & _)|[(Hc & Hs & _ & Hm)|(Hc & Hr & _)]].
    all: try (split; [|apply pathEmpty_one_step]; lia).
    all: split; [left; right; exact Hc|].
    all: intros k Hk'; rewrite Hc, Z.sub_diag in *; cbn [Z.sgn Z.abs] in *.
    all: rewrite Z.mul_0_r, Z.add_0_r.
    all: destruct Hs as [(Hcol & H6 & H4)|(Hcol & H1 & H3)];
      try congruence.
    all: rewrite ?H6, ?H4, ?H1, ?H3 in *; cbn in Hk'.
    all: assert (k = 1%Z) as -> by lia; exact Hm. }
  destruct (String.eqb_spec (Type_ p) Rook) as [_|_]; [tauto|].
  destruct (String.eqb_spec (Type_ p) Knight) as [H|_]; [contradiction|].
  destruct (String.eqb_spec (Type_ p) Bishop) as [_|_]; [tauto|].
  destruct (String.eqb_spec (Type_ p) Queen) as [_|_]; [tauto|].
  destruct (String.eqb_spec (Type_ p) King) as [_|_]; [|contradiction].
  destruct Hrule as [Hr Hc].
  split; [|apply pathEmpty_one_step; assumption].
  unfold alongLine, alongDiagonal. lia.
Qed.

Lemma only_knights_jump_witness :
  (alongLine (mkMove 6 4 4 4) \/ alongDiagonal (mkMove 6 4 4 4))
  /\ pathEmpty (Board newGame) (mkMove 6 4 4 4).
Proof.
  apply (only_knights_jump newGame (mkMove 6 4 4 4) (mkPiece Pawn "white")).
  - vm_compute. reflexivity.
  - vm_compute. reflexivity.
  - discriminate.
Defined.

Lemma Z8_inj (i j : fin 8) : Z8 i = Z8 j -> i = j.
Proof.
  unfold Z8. intros H. apply Nat2Z.inj in H.
  apply (inj fin_to_nat). exact H.
Qed.

(** Reading a board after one write. *)
Lemma square_setSquare (board board' : vec (vec (option Piece) 8) 8)
    (row col : Z) (p : option Piece) (r c : Z) :
  setSquare board row col p = Done board' ->
  square board' r c
  = if bool_decide (r = row /\ c = col) then Done p else square board r c.
Proof.
  unfold setSquare, square.
  destruct (index8 row) as [i|] eqn:Ei; [|discriminate].
  destruct (index8 col) as [j|] eqn:Ej; [|discriminate].
  intros [= <-]. apply index8_Some in Ei, Ej. subst row col.
  destruct (index8 r) as [i'|] eqn:Ei'.
  2:{ rewrite bool_decide_eq_false_2; [reflexivity|].
      intros [-> _]. rewrite index8_Z8 in Ei'. discriminate. }
  destruct (index8 c) as [j'|] eqn:Ej'.
  2:{ rewrite bool_decide_eq_false_2; [reflexivity|].
      intros [_ ->]. rewrite index8_Z8 in Ej'. discriminate. }
  apply index8_Some in Ei', Ej'. subst r c.
  destruct (decide (i = i')) as [<-|Hi].
  - rewrite vlookup_insert. destruct (decide (j = j')) as [<-|Hj].
    + rewrite vlookup_insert, bool_decide_eq_true_2; auto.
    + rewrite vlookup_insert_ne by exact Hj.
      rewrite bool_decide_eq_false_2; [reflexivity|].
      intros [_ H]. apply Z8_inj in H. congruence.
  - rewrite vlookup_insert_ne by exact Hi.
    rewrite bool_decide_eq_false_2; [reflexivity|].
    intros [H _]. apply Z8_inj in H. congruence.
Qed.

Lemma setSquare_in (board : vec (vec (option Piece) 8) 8) (row col : Z)
    (p : option Piece) :
  (0 <= row <= 7)%Z -> (0 <= col <= 7)%Z ->
  exists board', setSquare board row col p = Done board'.
Proof.
  intros Hr Hc. unfold setSquare.
  destruct (index8_in row Hr) as (i & -> & _).
  destruct (index8_in col Hc) as (j & -> & _). eauto.
Qed.

(** [makeMove] on the board, with a map to file captures in. *)
Lemma makeMove_spec (game : ChessGame) (move : Move)
    (from to : option Piece) :
  onBoard move -> is_Some (CapturedPieces game) ->
  square (Board game) (FromRow move) (FromCol move) = Done from ->
  square (Board game) (ToRow move) (ToCol move) = Done to ->
  exists game' : ChessGame,
    makeMove game move = Done game'
    /\ (forall r c : Z,
          square (Board game') r c
          = if bool_decide (r = FromRow move /\ c = FromCol move)
            then Done None
            else if bool_decide (r = ToRow move /\ c = ToCol move)
                 then Done from
                 else square (Board game) r c)
    /\ CurrentPlayer game' = CurrentPlayer game
    /\ GameOver game' = GameOver game
    /\ MoveHistory game' = MoveHistory game ++ [move]
    /\ is_Some (CapturedPieces game')
    /\ (forall color : string,
          capturedBy game' color
          = capturedBy game color
            ++ match to with
               | Some q => if String.eqb color (capturer q) then [q] else []
               | None => []
               end).
Proof.
  intros (Hfr & Hfc & Htr & Htc) [captured Hcap] Hfrom Hto.
  unfold makeMove. rewrite Hto, Hfrom. cbn [bindRun].
  destruct (setSquare_in (Board game) _ _ from Htr Htc) as [board1 H1].
  destruct (setSquare_in board1 _ _ None Hfr Hfc) as [board2 H2].
  assert (forall r c : Z,
            square board2 r c
            = if bool_decide (r = FromRow move /\ c = FromCol move)
              then Done None
              else if bool_decide (r = ToRow move /\ c = ToCol move)
                   then Done from
                   else square (Board game) r c) as Hboard.
  { intros r c. rewrite (square_setSquare _ _ _ _ _ r c H2).
    rewrite (square_setSquare _ _ _ _ _ r c H1). reflexivity. }
  destruct to as [q|].
  - rewrite Hcap. cbn [bindRun]. rewrite H1. cbn [bindRun].
    rewrite H2. cbn [bindRun].
    eexists. split; [reflexivity|].
    cbn [Board CurrentPlayer GameOver MoveHistory CapturedPieces].
    repeat split; [exact Hboard|eauto|].
    intros color. unfold capturedBy, capturer.
    cbn [CapturedPieces mbind option_bind]. rewrite Hcap.
    cbn [mbind option_bind].
    set (opp := if String.eqb (Color q) "white" then "black" else "white").
    destruct (String.eqb_spec color opp) as [->|Hne].
    + rewrite lookup_insert_eq. reflexivity.
    + rewrite lookup_insert_ne by congruence. rewrite app_nil_r.
      reflexivity.
  - cbn [bindRun]. rewrite H1. cbn [bindRun]. rewrite H2. cbn [bindRun].
    eexists. split; [reflexivity|].
    cbn [Board CurrentPlayer GameOver MoveHistory CapturedPieces].
    repeat split; [exact Hboard|eauto|].
    intros color. unfold capturedBy. cbn [CapturedPieces].
    rewrite app_nil_r. reflexivity.
Qed.

Lemma isCheckmate_board (game game' : ChessGame) :
  Board game' = Board game -> isCheckmate game' = isCheckmate game.
Proof. unfold isCheckmate. intros ->. reflexivity. Qed.

(** The two outcomes of [handleMove] when there is a map to file captures
    in: a refusal that leaves the game as it is, or the move made. *)
Lemma handleMove_cases (body : option Move) (game : ChessGame) :
  is_Some (CapturedPieces game) ->
  (exists message : string,
     handleMove body game = Done (Failed 400 message, game)
     /\ forall move : Move,
          body = Some move ->
          GameOver game = true \/ isValidMove game move = Done false)
  \/ (exists (move : Move) (p : Piece) (to : option Piece)
             (game' : ChessGame),
        body = Some move
        /\ GameOver game = false
        /\ isValidMove game move = Done true
        /\ handleMove body game = Done (Responded game', game')
        /\ square (Board game) (FromRow move) (FromCol move)
           = Done (Some p)
        /\ square (Board game) (ToRow move) (ToCol move) = Done to
        /\ (FromRow move <> ToRow move \/ FromCol move <> ToCol move)
        /\ (forall r c : Z,
              square (Board game') r c
              = if bool_decide (r = FromRow move /\ c = FromCol move)
                then Done None
                else if bool_decide (r = ToRow move /\ c = ToCol move)
                     then Done (Some p)
                     else square (Board game) r c)
        /\ CurrentPlayer game'
           = (if String.eqb (CurrentPlayer game) "white" then "black"
              else "white")
        /\ GameOver game' = isCheckmate game'
        /\ MoveHistory game' = MoveHistory game ++ [move]
        /\ is_Some (CapturedPieces game')
        /\ forall color : string,
             capturedBy game' color
             = capturedBy game color
               ++ match to with
                  | Some q =>
                      if String.eqb color (capturer q) then [q] else []
                  | None => []
                  end).
Proof.
  intros Hcap. destruct body as [move|].
  2:{ left. eexists. split; [reflexivity|]. discriminate. }
  unfold handleMove. destruct (GameOver game) eqn:Hover.
  { left. eexists. split; [reflexivity|]. intros m _. left. reflexivity. }
  destruct (isValidMove_cases game move) as (b & Hb & Hiff).
  rewrite Hb. cbn [bindRun]. destruct b; cbn [negb].
  2:{ left. eexists. split; [reflexivity|].
      intros m [= <-]. right. exact Hb. }
  right. destruct Hiff as [Hiff _].
  destruct (Hiff eq_refl) as (Hon & p & Hp & _ & Hother & _).
  pose proof Hon as (Hfr & Hfc & Htr & Htc).
  destruct (square_in (Board game) _ _ Htr Htc) as [to Hto].
  assert (FromRow move <> ToRow move \/ FromCol move <> ToCol move)
    as Hne.
  { destruct (Z.eq_dec (FromRow move) (ToRow move)) as [Er|]; [|tauto].
    destruct (Z.eq_dec (FromCol move) (ToCol move)) as [Ec|]; [|tauto].
    rewrite <- Er, <- Ec in Hother. destruct (Hother p Hp eq_refl). }
  destruct (makeMove_spec game move (Some p) to Hon Hcap Hp Hto)
    as (game1 & H1 & Hboard & Hplayer & Hover1 & Hhist & Hcap1 & Hlists).
  rewrite H1. cbn [bindRun].
  exists move, p, to. eexists.
  split; [reflexivity|]. split; [reflexivity|]. split; [exact Hb|].
  split; [reflexivity|]. split; [exact Hp|]. split; [exact Hto|].
  split; [exact Hne|].
  destruct (isCheckmate game1) eqn:Hmate;
    cbn [Board CurrentPlayer GameOver MoveHistory CapturedPieces];
    rewrite ?Hplayer.
  - repeat split; try assumption.
    symmetry. rewrite <- Hmate. apply isCheckmate_board. reflexivity.
  - repeat split; try assumption.
    rewrite Hover1, Hover. symmetry. rewrite <- Hmate.
    apply isCheckmate_board. reflexivity.
Qed.

(** A move that [isValidMove] accepts in a game that is not over is
    made without a panic: the piece arrives on its target square, the
    square it left is empty and is a different square, no other square
    changes, the move is added to the history, the other player is to
    move, and the game is over exactly when no king is left. *)
Theorem handleMove_accepts (game : ChessGame) (move : Move) :
  is_Some (CapturedPieces game) ->
  GameOver game = false ->
  isValidMove game move = Done true ->
  exists (game' : ChessGame) (p : Piece),
    handleMove (Some move) game = Done (Responded game', game')
    /\ square (Board game) (FromRow move) (FromCol move) = Done (Some p)
    /\ square (Board game') (ToRow move) (ToCol move) = Done (Some p)
    /\ square (Board game') (FromRow move) (FromCol move) = Done None
    /\ (forall r c : Z,
          ~ (r = FromRow move /\ c = FromCol move) ->
          ~ (r = ToRow move /\ c = ToCol move) ->
          square (Board game') r c = square (Board game) r c)
    /\ MoveHistory game' = MoveHistory game ++ [move]
    /\ CurrentPlayer game' <> CurrentPlayer game
    /\ GameOver game' = isCheckmate game'.
Proof.
  intros Hcap Hover Hvalid.
  destruct (handleMove_cases (Some move) game Hcap)
    as [(message & _ & Hno)
       |(m & p & to & game' & [= <-] & _ & _ & Hrun & Hp & _ & Hne
         & Hboard & Hplayer & Hmate & Hhist & _)].
  { destruct (Hno move eq_refl) as [H|H]; congruence. }
  exists game', p. split; [exact Hrun|]. split; [exact Hp|].
  split; [|split; [|split; [|split; [exact Hhist|split; [|exact Hmate]]]]].
  - rewrite Hboard.
    rewrite bool_decide_eq_false_2
      by (intros [? ?]; destruct Hne; congruence).
    rewrite bool_decide_eq_true_2 by (split; reflexivity). reflexivity.
  - rewrite Hboard.
    rewrite bool_decide_eq_true_2 by (split; reflexivity). reflexivity.
  - intros r c Hf Ht. rewrite Hboard.
    rewrite !bool_decide_eq_false_2 by assumption. reflexivity.
  - rewrite Hplayer.
    destruct (String.eqb_spec (CurrentPlayer game) "white") as [->|H];
      [discriminate|congruence].
Qed.

Lemma handleMove_accepts_witness :
  exists (game' : ChessGame) (p : Piece),
    handleMove (Some (mkMove 6 4 4 4)) newGame
    = Done (Responded game', game')
    /\ square (Board newGame) 6 4 = Done (Some p)
    /\ square (Board game') 4 4 = Done (Some p)
    /\ square (Board game') 6 4 = Done None
    /\ (forall r c : Z,
          ~ (r = 6%Z /\ c = 4%Z) -> ~ (r = 4%Z /\ c = 4%Z) ->
          square (Board game') r c = square (Board newGame) r c)
    /\ MoveHistory game' = MoveHistory newGame ++ [mkMove 6 4 4 4]
    /\ CurrentPlayer game' <> CurrentPlayer newGame
    /\ GameOver game' = isCheckmate game'.
Proof.
  apply (handleMove_accepts newGame (mkMove 6 4 4 4)).
  - eexists. reflexivity.
  - reflexivity.
  - vm_compute. reflexivity.
Defined.

(** A request that is not a move accepted in a game that is not over
    is answered with status 400 and leaves the game exactly as it was: a
    body that is no move, a game that is over, a move that [isValidMove]
    refuses. *)
Theorem handleMove_refuses (body : option Move) (game : ChessGame) :
  (forall move : Move,
     body = Some move ->
     GameOver game = true \/ isValidMove game move <> Done true) ->
  exists message : string,
    handleMove body game = Done (Failed 400 message, game).
Proof.
  intros Hno. destruct body as [move|]; [|eexists; reflexivity].
  unfold handleMove. destruct (GameOver game) eqn:Hover;
    [eexists; reflexivity|].
  destruct (isValidMove_cases game move) as (b & Hb & _).
  rewrite Hb. cbn [bindRun]. destruct b; cbn [negb];
    [|eexists; reflexivity].
  destruct (Hno move eq_refl) as [H|H]; [discriminate|contradiction].
Qed.

Lemma handleMove_refuses_witness :
  exists message : string,
    handleMove (Some (mkMove 6 4 3 4)) newGame
    = Done (Failed 400 message, newGame).
Proof.
  apply (handleMove_refuses (Some (mkMove 6 4 3 4)) newGame).
  intros move [= <-]. right. vm_compute. discriminate.
Defined.

Lemma capturedBy_setupPieces (game : ChessGame) (color : string) :
  capturedBy (setupPieces game) color = capturedBy game color.
Proof. reflexivity. Qed.

Lemma boardInvariant_setupPieces (game : ChessGame) :
  boardInvariant game -> boardInvariant (setupPieces game).
Proof.
  intros (Hcap & _ & _ & Hblack & Hwhite & Hother).
  unfold boardInvariant. split; [exact Hcap|]. split.
  { vm_compute. reflexivity. }
  split; [left; split; [reflexivity|exists 0%nat; reflexivity]|].
  rewrite !capturedBy_setupPieces. split; [exact Hblack|].
  split; [exact Hwhite|].
  intros color. rewrite capturedBy_setupPieces. apply Hother.
Qed.

Lemma boardInvariant_newGame : boardInvariant newGame.
Proof.
  unfold boardInvariant. split; [eexists; reflexivity|].
  split; [vm_compute; reflexivity|].
  split; [left; split; [reflexivity|exists 0%nat; reflexivity]|].
  split; [apply Forall_nil_2|]. split; [apply Forall_nil_2|].
  intros color Hw Hb. unfold capturedBy, newGame, initializeGame.
  cbn [setupPieces CapturedPieces mbind option_bind].
  rewrite !lookup_insert_ne by congruence. reflexivity.
Qed.

(** One request keeps the invariant and only adds to the captured
    pieces. *)
Lemma serveBoard_step (game : ChessGame) (request : BoardRequest) :
  boardInvariant game ->
  exists game' : ChessGame,
    serveBoard game request = Done game'
    /\ boardInvariant game'
    /\ forall color : string,
         capturedBy game color `prefix_of` capturedBy game' color.
Proof.
  intros Hinv. destruct request as [body| |].
  2,3: exists (setupPieces game); split; [reflexivity|];
       split; [apply boardInvariant_setupPieces; exact Hinv|];
       intros color; rewrite capturedBy_setupPieces; reflexivity.
  pose proof Hinv as (Hcap & Hover & Hturn & Hblack & Hwhite & Hother).
  cbn [serveBoard].
  destruct (handleMove_cases body game Hcap)
    as [(message & -> & _)
       |(move & p & to & game' & _ & _ & _ & -> & _ & _ & _ & _
         & Hplayer & Hmate & Hhist & Hcap' & Hlists)]; cbn [bindRun snd].
  { exists game. split; [reflexivity|]. split; [exact Hinv|].
    intros color. reflexivity. }
  exists game'. split; [reflexivity|]. split.
  2:{ intros color. rewrite Hlists. apply prefix_app_r. reflexivity. }
  unfold boardInvariant. split; [exact Hcap'|]. split; [exact Hmate|].
  rewrite Hplayer, Hhist, length_app, Nat.add_1_r. split.
  { destruct Hturn as [[-> Heven]|[-> Hodd]]; cbn [String.eqb Ascii.eqb
      Bool.eqb].
    - right. split; [reflexivity|]. apply Nat.Odd_succ. exact Heven.
    - left. split; [reflexivity|]. apply Nat.Even_succ. exact Hodd. }
  rewrite !Hlists. unfold capturer.
  split; [|split].
  - apply Forall_app. split; [exact Hblack|].
    destruct to as [q|]; [|apply Forall_nil_2].
    destruct (String.eqb_spec (Color q) "white") as [Hq|Hq];
      cbn [String.eqb Ascii.eqb Bool.eqb].
    + apply Forall_singleton. exact Hq.
    + apply Forall_nil_2.
  - apply Forall_app. split; [exact Hwhite|].
    destruct to as [q|]; [|apply Forall_nil_2].
    destruct (String.eqb_spec (Color q) "white") as [Hq|Hq];
      cbn [String.eqb Ascii.eqb Bool.eqb].
    + apply Forall_nil_2.
    + apply Forall_singleton. exact Hq.
  - intros color Hw Hb. rewrite Hlists, (Hother color Hw Hb).
    unfold capturer. destruct to as [q|]; [|reflexivity].
    destruct (String.eqb (Color q) "white");
      [destruct (String.eqb_spec color "black")
      |destruct (String.eqb_spec color "white")];
      first [contradiction | reflexivity].
Qed.

Lemma serveBoardAll_steps (requests : list BoardRequest)
    (game : ChessGame) :
  boardInvariant game ->
  exists game' : ChessGame,
    serveBoardAll game requests = Done game'
    /\ boardInvariant game'
    /\ forall color : string,
         capturedBy game color `prefix_of` capturedBy game' color.
Proof.
  revert game. induction requests as [|request rest IH]; intros game Hinv.
  - exists game. split; [reflexivity|]. split; [exact Hinv|].
    intros color. reflexivity.
  - destruct (serveBoard_step game request Hinv) as (g1 & H1 & Hinv1 & Hp1).
    destruct (IH g1 Hinv1) as (g2 & H2 & Hinv2 & Hp2).
    exists g2. cbn [serveBoardAll]. rewrite H1. cbn [bindRun].
    split; [exact H2|]. split; [exact Hinv2|].
    intros color. etransitivity; [apply Hp1|apply Hp2].
Qed.

Lemma serveBoardAll_app (first more : list BoardRequest)
    (game : ChessGame) :
  serveBoardAll game (first ++ more)
  = bindRun (serveBoardAll game first) (fun game1 =>
    serveBoardAll game1 more).
Proof.
  revert game. induction first as [|request rest IH]; intros game;
    [reflexivity|].
  cbn [app serveBoardAll].
  destruct (serveBoard game request) as [game1|]; [|reflexivity].
  cbn [bindRun]. apply IH.
Qed.

(** From the game [main] sets up, the board routes never panic,
    whatever requests arrive in whatever order; and after them the game is
    marked over exactly when no king is left on the board, white is to move
    after an even number of moves and black after an odd number, the pieces
    filed under black are white and those filed under white are not. *)
Theorem serveBoardAll_never_panics (requests : list BoardRequest) :
  exists game : ChessGame,
    serveBoardAll newGame requests = Done game
    /\ GameOver game = isCheckmate game
    /\ (CurrentPlayer game = "white"
        /\ Nat.Even (length (MoveHistory game))
        \/ CurrentPlayer game = "black"
           /\ Nat.Odd (length (MoveHistory game)))
    /\ Forall (fun q => Color q = "white") (capturedBy game "black")
    /\ Forall (fun q => Color q <> "white") (capturedBy game "white").
Proof.
  destruct (serveBoardAll_steps requests newGame boardInvariant_newGame)
    as (game & Hrun & (_ & Hover & Hturn & Hblack & Hwhite & _) & _).
  exists game. tauto.
Qed.

(** Captured pieces are never forgotten: over a run from the game
    [main] sets up, each list of captured pieces only grows at its end;
    a new game or a reset, which set the board up again, leave the lists
    of the game before in place. *)
Theorem captured_never_forgotten (first more : list BoardRequest) :
  exists game game' : ChessGame,
    serveBoardAll newGame first = Done game
    /\ serveBoardAll newGame (first ++ more) = Done game'
    /\ forall color : string,
         capturedBy game color `prefix_of` capturedBy game' color.
Proof.
  destruct (serveBoardAll_steps first newGame boardInvariant_newGame)
    as (game & Hrun & Hinv & _).
  destruct (serveBoardAll_steps more game Hinv) as (game' & Hrun' & _ & Hp).
  exists game, game'. split; [exact Hrun|]. split; [|exact Hp].
  rewrite serveBoardAll_app, Hrun. exact Hrun'.
Qed.

Example readPuzzlesFromFile_sample :
  readPuzzlesFromFile (Some sampleFile) 5
  = Some
      [mkPuzzle "wpm_easy_001" "easy"
         "6k1/5ppp/8/8/8/8/5PPP/R5K1 w - - 0 1" (mkSolution [] []) [];
       mkPuzzle "wpm_easy_007" "easy"
         "8/8/8/8/8/5k2/8/r4K2 b - - 0 1" (mkSolution [] []) []].
Proof. vm_compute. reflexivity. Qed.

(** ** Reading the puzzle file *)

Lemma readPuzzleLines_length (maxPuzzles : Z) (lines : list string)
    (puzzles : list Puzzle) :
  (length (readPuzzleLines maxPuzzles lines puzzles)
   <= length puzzles + length lines)%nat
  /\ (Z.of_nat (length (readPuzzleLines maxPuzzles lines puzzles))
      <= Z.max (Z.of_nat (length puzzles)) maxPuzzles)%Z.
Proof.
  revert puzzles. induction lines as [|line rest IH]; intros puzzles;
    cbn [readPuzzleLines length].
  - lia.
  - destruct (Z.geb_spec (Z.of_nat (length puzzles)) maxPuzzles)
      as [Hfull|Hroom]; [lia|].
    destruct (readPuzzleLine (TrimSpace line)) as [puzzle|].
    + destruct (IH (puzzles ++ [puzzle])) as [H1 H2].
      rewrite length_app in H1, H2. cbn [length] in H1, H2. lia.
    + destruct (IH puzzles) as [H1 H2]. lia.
Qed.

(** [readPuzzlesFromFile] returns at most [maxPuzzles] puzzles, none
    when [maxPuzzles] is negative, and at most one for each line of the
    file. *)
Theorem readPuzzlesFromFile_at_most (content : string) (maxPuzzles : Z) :
  exists puzzles : list Puzzle,
    readPuzzlesFromFile (Some content) maxPuzzles = Some puzzles
    /\ (Z.of_nat (length puzzles) <= Z.max 0 maxPuzzles)%Z
    /\ (length puzzles <= length (Split content (String "010" "")))%nat.
Proof.
  eexists. split; [reflexivity|].
  destruct (readPuzzleLines_length maxPuzzles
              (Split content (String "010" "")) []) as [H1 H2].
  cbn [length] in H1, H2. split; [exact H2|exact H1].
Qed.

Lemma String_length_bytes (s : string) :
  String.length s = length (bytes s).
Proof. induction s as [|c s IH]; cbn; congruence. Qed.

Lemma Sprintf03d_length (n : Z) : (3 <= String.length (Sprintf03d n))%nat.
Proof.
  unfold Sprintf03d. rewrite !String_length_bytes, !bytes_append.
  rewrite bytes_of_bytes, !length_app, repeat_length.
  rewrite <- !String_length_bytes.
  destruct (n <? 0)%Z; cbn [String.length]; lia.
Qed.

Lemma atoiBytes_range (s : list ascii) (n : Z) :
  atoiBytes s = Some n -> (- 2 ^ 63 <= n < 2 ^ 63)%Z.
Proof.
  unfold atoiBytes.
  destruct (match s with
            | "-"%char :: rest => (true, rest)
            | "+"%char :: rest => (false, rest)
            | _ => (false, s)
            end) as [neg digits].
  destruct digits as [|d digits]; [discriminate|].
  destruct (digitsValue 0 (d :: digits)) as [v|]; [|discriminate].
  destruct ((- 2 ^ 63 <=? (if neg then (- v)%Z else v))
            && ((if neg then (- v)%Z else v) <? 2 ^ 63))%Z eqn:Hr;
    [|discriminate].
  intros [= <-]. apply andb_true_iff in Hr as [H1 H2].
  apply Z.leb_le in H1. apply Z.ltb_lt in H2. lia.
Qed.

Lemma string_append_assoc (s1 s2 s3 : string) :
  ((s1 ++ s2) ++ s3 = s1 ++ s2 ++ s3)%string.
Proof.
  rewrite <- (of_bytes_bytes ((s1 ++ s2) ++ s3)%string).
  rewrite <- (of_bytes_bytes (s1 ++ s2 ++ s3)%string).
  rewrite !bytes_append, app_assoc. reflexivity.
Qed.

Lemma concat_app_cons (sep x : string) (l l' : list string) :
  l <> [] ->
  String.concat sep (l ++ x :: l')
  = (String.concat sep l ++ sep ++ String.concat sep (x :: l'))%string.
Proof.
  induction l as [|y l IH]; [congruence|]. intros _.
  destruct l as [|z l].
  - reflexivity.
  - change (String.concat sep ((y :: z :: l) ++ x :: l'))
      with (y ++ sep ++ String.concat sep ((z :: l) ++ x :: l'))%string.
    rewrite IH by discriminate.
    change (String.concat sep (y :: z :: l))
      with (y ++ sep ++ String.concat sep (z :: l))%string.
    rewrite !string_append_assoc. reflexivity.
Qed.

(** [strings.Fields] undoes [strings.Join] with a space on fields. *)
Lemma Fields_Join (parts : list string) :
  Forall (fun f => isField (bytes f)) parts ->
  Fields (Join parts " ") = parts.
Proof.
  unfold Fields, Join. induction 1 as [|f parts Hf Hall IH]; [reflexivity|].
  destruct parts as [|g parts].
  - cbn [String.concat]. rewrite (fieldsBytes_last _ Hf).
    cbn [map]. rewrite of_bytes_bytes. reflexivity.
  - change (String.concat " " (f :: g :: parts))
      with (f ++ " " ++ String.concat " " (g :: parts))%string.
    rewrite !bytes_append. cbn [list_ascii_of_string app].
    rewrite (fieldsBytes_first _ " "%char _ Hf eq_refl).
    cbn [map]. rewrite of_bytes_bytes, IH. reflexivity.
Qed.

Lemma Fields_fields (s : string) :
  Forall (fun f => isField (bytes f)) (Fields s).
Proof.
  unfold Fields. apply Forall_fmap.
  eapply Forall_impl; [apply fieldsBytes_fields|].
  intros f Hf. cbn. rewrite bytes_of_bytes. exact Hf.
Qed.

Lemma HasPrefix_drop (s sep : list ascii) :
  GoBytes.HasPrefix s sep = true -> s = sep ++ drop (length sep) s.
Proof.
  revert s. induction sep as [|c sep IH]; intros s H; [reflexivity|].
  destruct s as [|d s]; [discriminate|]. cbn in H.
  apply andb_true_iff in H as [Hc H]. apply Ascii.eqb_eq in Hc as ->.
  cbn [length drop app]. f_equal. apply IH, H.
Qed.

(** [cutBytes] cuts at an occurrence of the separator. *)
Lemma cutBytes_spec (sep s before after : list ascii) :
  cutBytes sep s = Some (before, after) -> s = before ++ sep ++ after.
Proof.
  revert before. induction s as [|c s IH]; intros before; cbn [cutBytes].
  - destruct (GoBytes.HasPrefix [] sep) eqn:Hp; [|discriminate].
    intros [= <- <-]. apply (HasPrefix_drop _ _ Hp).
  - destruct (GoBytes.HasPrefix (c :: s) sep) eqn:Hp.
    + intros [= <- <-]. apply (HasPrefix_drop _ _ Hp).
    + destruct (cutBytes sep s) as [[b a]|]; [|discriminate].
      intros [= <- <-]. cbn [app]. f_equal. apply IH. reflexivity.
Qed.

Lemma SplitN2_two (s sep number text : string) :
  SplitN2 s sep = [number; text] -> s = (number ++ sep ++ text)%string.
Proof.
  unfold SplitN2.
  destruct (cutBytes (bytes sep) (bytes s)) as [[before after]|] eqn:Hcut;
    [|discriminate].
  intros [= <- <-]. apply cutBytes_spec in Hcut.
  rewrite <- (of_bytes_bytes s), Hcut.
  rewrite <- (of_bytes_bytes (of_bytes before ++ sep ++ of_bytes after)).
  rewrite !bytes_append, !bytes_of_bytes. reflexivity.
Qed.

Lemma readPuzzleLine_shape (line : string) (p : Puzzle) :
  readPuzzleLine (TrimSpace line) = Some p -> readFromLine line p.
Proof.
  unfold readPuzzleLine.
  destruct (String.eqb (TrimSpace line) ""); [discriminate|].
  destruct (isPlaceholder (TrimSpace line)) eqn:Hph; [discriminate|].
  destruct (SplitN2 (TrimSpace line) ". ") as [|number [|text [|? ?]]]
    eqn:Hsplit; try discriminate.
  destruct (Atoi number) as [n|] eqn:Hn; [|discriminate].
  destruct (Nat.ltb_spec (length (Fields text)) 2) as [|Hlen];
    [discriminate|].
  intros [= <-]. exists number, text, n.
  cbn [ID Difficulty FEN PuzzleSolution Ticks].
  split; [apply SplitN2_two; exact Hsplit|].
  split; [exact Hph|]. split; [exact Hn|]. split; [exact Hlen|].
  set (parts := Fields text) in *.
  assert (parts <> []) as Hne by (destruct parts; [cbn in Hlen; lia|
                                   discriminate]).
  assert (removelast parts <> []) as Hne'.
  { destruct parts as [|a [|b l]]; cbn in Hlen |- *; [lia|lia|
      discriminate]. }
  assert ((Join (removelast parts) " " ++ " " ++ List.last parts ""
           ++ " - - 0 1")%string
          = Join (parts ++ ["-"; "-"; "0"; "1"]) " ") as Hfen.
  { rewrite (app_removelast_last "" Hne) at 3.
    rewrite <- app_assoc. cbn [app]. unfold Join.
    rewrite (concat_app_cons _ _ _ _ Hne'). reflexivity. }
  assert (Forall (fun f => isField (bytes f))
            (parts ++ ["-"; "-"; "0"; "1"])) as Hfields.
  { apply Forall_app. split; [apply Fields_fields|].
    repeat constructor; discriminate. }
  rewrite Hfen. split; [reflexivity|]. split.
  { rewrite String_length_bytes, bytes_append, length_app.
    rewrite <- !String_length_bytes.
    pose proof (Sprintf03d_length n). cbn [String.length]. lia. }
  pose proof (Fields_Join _ Hfields) as HF. split; [exact HF|].
  unfold extractSideToMove.
  destruct (String.eqb_spec (Join (parts ++ ["-"; "-"; "0"; "1"]) " ") "")
    as [E|_].
  { rewrite E in HF. destruct parts; discriminate. }
  cbv zeta. rewrite HF. rewrite length_app. cbn [length].
  destruct (Nat.leb_spec 2 (length parts + 4)) as [_|]; [|lia].
  rewrite lookup_app_l by lia. reflexivity.
Qed.

Lemma readPuzzleLines_shape (maxPuzzles : Z) (all lines : list string)
    (puzzles : list Puzzle) :
  (forall line : string, line ∈ lines -> line ∈ all) ->
  Forall (fun p => exists line, line ∈ all /\ readFromLine line p)
    puzzles ->
  Forall (fun p => exists line, line ∈ all /\ readFromLine line p)
    (readPuzzleLines maxPuzzles lines puzzles).
Proof.
  revert puzzles.
  induction lines as [|line rest IH]; intros puzzles Hsub Hall;
    cbn [readPuzzleLines]; [exact Hall|].
  destruct (Z.of_nat (length puzzles) >=? maxPuzzles)%Z; [exact Hall|].
  assert (forall l : string, l ∈ rest -> l ∈ all) as Hrest.
  { intros l Hl. apply Hsub. apply list_elem_of_further. exact Hl. }
  destruct (readPuzzleLine (TrimSpace line)) as [puzzle|] eqn:Hline;
    [|apply IH; assumption].
  apply IH; [exact Hrest|]. apply Forall_app. split; [exact Hall|].
  apply Forall_singleton. exists line. split.
  - apply Hsub. apply list_elem_of_here.
  - apply (readPuzzleLine_shape _ _ Hline).
Qed.

(** On an ASCII file, where [TrimSpace] and [Fields] are what the Go
    functions compute: every puzzle that [readPuzzlesFromFile] returns
    comes from a line of the file that, trimmed, is no placeholder and
    reads as an integer, a dot and a space, and a text of two fields or
    more.  The puzzle is marked easy and carries no solution yet; its id
    is wpm_easy_ followed by that integer in three characters or more; its
    FEN is the fields of that text followed by - - 0 1, joined by single
    spaces, so that [strings.Fields] gives these fields back; and the side
    to move that [seedPuzzles] stores for it, [extractSideToMove] of that
    FEN, is the second field of that text. *)
Theorem readPuzzlesFromFile_shape (content : string) (maxPuzzles : Z)
    (puzzles : list Puzzle) :
  isASCII content = true ->
  readPuzzlesFromFile (Some content) maxPuzzles = Some puzzles ->
  Forall
    (fun p =>
       exists line : string,
         line ∈ Split content (String "010" "") /\ readFromLine line p)
    puzzles.
Proof.
  intros _ [= <-]. apply readPuzzleLines_shape; [auto|constructor].
Qed.

Lemma readPuzzlesFromFile_shape_witness :
  Forall
    (fun p =>
       exists line : string,
         line ∈ Split sampleFile (String "010" "") /\ readFromLine line p)
    [mkPuzzle "wpm_easy_001" "easy"
       "6k1/5ppp/8/8/8/8/5PPP/R5K1 w - - 0 1" (mkSolution [] []) [];
     mkPuzzle "wpm_easy_007" "easy"
       "8/8/8/8/8/5k2/8/r4K2 b - - 0 1" (mkSolution [] []) []].
Proof.
  apply (readPuzzlesFromFile_shape sampleFile 5).
  - vm_compute. reflexivity.
  - vm_compute. reflexivity.
Defined.
